(** * Bdd-Jeux: the game-collection server ([src/server.js])

    A shallow embedding of the Express/MongoDB server: the JSON values
    that travel in request bodies and stored documents, the declarative
    [gameSchema] with its interpreter [validateGame], the collection with
    the driver calls the handlers make, the eight route handlers, and the
    router that picks a handler in registration order. *)

From Stdlib Require Import PrimFloat Uint63 ZArith Lia.
From stdpp Require Import base option list gmap strings pretty sorting.


Set Warnings "-register-all,-clear-no-such-hyp,-unused-intro-pattern".

(** ** JavaScript strings

    A JavaScript string is modelled by the UTF-8 bytes of its text (a Rocq
    [string]); [code_points] decodes it, so that [length] and [trim] see
    the characters JavaScript sees. *)
Module JsString.

Definition bytes (s : string) : list N :=
  Ascii.N_of_ascii <$> String.list_ascii_of_string s.

Fixpoint decode (bs : list N) : list N :=
  match bs with
  | [] => []
  | b :: r =>
    if (b <? 128)%N then b :: decode r
    else if (b <? 224)%N then
      match r with
      | c1 :: r1 => ((b mod 32) * 64 + c1 mod 64)%N :: decode r1
      | [] => [65533%N]
      end
    else if (b <? 240)%N then
      match r with
      | c1 :: c2 :: r2 =>
        ((b mod 16) * 4096 + (c1 mod 64) * 64 + c2 mod 64)%N :: decode r2
      | _ => [65533%N]
      end
    else
      match r with
      | c1 :: c2 :: c3 :: r3 =>
        ((b mod 8) * 262144 + (c1 mod 64) * 4096 + (c2 mod 64) * 64
         + c3 mod 64)%N :: decode r3
      | _ => [65533%N]
      end
  end.

Definition code_points (s : string) : list N := decode (bytes s).

(** [s.length]: the number of UTF-16 code units. *)
Definition length (s : string) : nat :=
  sum_list ((λ c, if (c <? 65536)%N then 1 else 2) <$> code_points s).

(** ECMAScript WhiteSpace and LineTerminator code points. *)
Definition is_space (c : N) : bool :=
  bool_decide (c ∈ [9; 10; 11; 12; 13; 32; 160; 5760; 8232; 8233; 8239;
                    8287; 12288; 65279]%N)
  || ((8192 <=? c)%N && (c <=? 8202)%N).

Fixpoint trimStart (cs : list N) : list N :=
  match cs with
  | c :: r => if is_space c then trimStart r else cs
  | [] => []
  end.

(** [s.trim()], as the code points that remain. *)
Definition trim (s : string) : list N :=
  reverse (trimStart (reverse (trimStart (code_points s)))).

End JsString.

(** ** Values

    What [JSON.parse] puts in a request body and what the collection
    stores: [undefined] is the absence of a key, so a property read is an
    [option value]. Numbers are IEEE doubles. [VDate] is a [Date] as
    milliseconds since the epoch (only the server creates those). *)
Inductive value :=
| VNull
| VBool (b : bool)
| VNum (x : float)
| VStr (s : string)
| VArr (l : list value)
| VObj (l : list (string * value))
| VDate (t : Z).

Inductive jstype := TyString | TyNumber | TyBoolean | TyObject.

#[global] Instance jstype_eq_dec : EqDecision jstype.
Proof. solve_decision. Defined.

Definition typeof (v : value) : jstype :=
  match v with
  | VStr _ => TyString
  | VNum _ => TyNumber
  | VBool _ => TyBoolean
  | VNull | VArr _ | VObj _ | VDate _ => TyObject
  end.

Definition isArray (v : value) : bool :=
  match v with VArr _ => true | _ => false end.

Definition is_nan (x : float) : bool := negb (PrimFloat.eqb x x).

(** ToBoolean, on a property read: [undefined], [null], [false], [0],
    [-0], [NaN] and the empty string are falsy. *)
Definition truthy (v : option value) : bool :=
  match v with
  | None | Some VNull => false
  | Some (VBool b) => b
  | Some (VNum x) => negb (PrimFloat.eqb x 0 || is_nan x)
  | Some (VStr s) => negb (bool_decide (s = ""))
  | Some (VArr _) | Some (VObj _) | Some (VDate _) => true
  end.

(** [a || null] *)
Definition or_null (v : option value) : value :=
  if truthy v then default VNull v else VNull.

(** [a ?? d] *)
Definition nullish (v : option value) (d : value) : value :=
  match v with
  | None | Some VNull => d
  | Some w => w
  end.

(** A request body, a [$set] document and the fields of a stored
    document are JavaScript objects read and written by key. *)
Abbreviation obj := (gmap string value).

(** ** The schema *)

Inductive schema_type := SString | SArray | SNumber | SBoolean.

#[global] Instance schema_type_eq_dec : EqDecision schema_type.
Proof. solve_decision. Defined.

(** One entry of [gameSchema]; a bound the entry does not declare is
    [None]. The declared bounds are non-negative integers. *)
Record rule := {
  s_type : schema_type;
  s_required : bool;
  s_min : option Z;
  s_max : option Z;
  s_minItems : option nat;
  s_minLength : option nat
}.

Definition number_of_Z (z : Z) : float := PrimFloat.of_uint63 (Uint63.of_Z z).

Definition mk_rule (t : schema_type) (req : bool) : rule :=
  {| s_type := t; s_required := req; s_min := None; s_max := None;
     s_minItems := None; s_minLength := None |}.

Section Server.

(** [new Date().getFullYear()], read once when the module is loaded. *)
Variable current_year : Z.

(** The entries in the order [Object.keys] enumerates them. *)
Definition gameSchema : list (string * rule) :=
  [ ("titre", {| s_type := SString; s_required := true; s_min := None;
                 s_max := None; s_minItems := None; s_minLength := Some 1 |});
    ("genre", {| s_type := SArray; s_required := true; s_min := None;
                 s_max := None; s_minItems := Some 1; s_minLength := None |});
    ("plateforme", {| s_type := SArray; s_required := true; s_min := None;
                      s_max := None; s_minItems := Some 1;
                      s_minLength := None |});
    ("editeur", mk_rule SString false);
    ("developpeur", mk_rule SString false);
    ("annee_sortie", {| s_type := SNumber; s_required := false;
                        s_min := Some 1970%Z; s_max := Some current_year;
                        s_minItems := None; s_minLength := None |});
    ("temps_jeu_heures", {| s_type := SNumber; s_required := false;
                            s_min := Some 0%Z; s_max := None;
                            s_minItems := None; s_minLength := None |});
    ("termine", mk_rule SBoolean false) ].

(** The condition of the [requis] branch, without its [!isUpdate &&
    s.required] guard. *)
Definition is_missing (v : option value) : bool :=
  match v with
  | None | Some VNull => true
  | Some (VStr s) => bool_decide (JsString.trim s = [])
  | Some (VArr l) => bool_decide (length l = 0)
  | Some _ => false
  end.

Definition when (b : bool) (msg : string) : list string :=
  if b then [msg] else [].

(** The eight [if]s run on a value that is neither [undefined] nor
    [null], in source order. *)
Definition check_value (key : string) (s : rule) (v : value) : list string :=
  when (bool_decide (s.(s_type) = SString) && negb (bool_decide (typeof v = TyString)))
       (key +:+ " doit être une chaîne")
  ++ when (bool_decide (s.(s_type) = SArray) && negb (isArray v))
       (key +:+ " doit être un tableau")
  ++ when (bool_decide (s.(s_type) = SNumber) && negb (bool_decide (typeof v = TyNumber)))
       (key +:+ " doit être un nombre")
  ++ when (bool_decide (s.(s_type) = SBoolean) && negb (bool_decide (typeof v = TyBoolean)))
       (key +:+ " doit être boolean")
  ++ match s.(s_min), v with
     | Some m, VNum x =>
       when (PrimFloat.ltb x (number_of_Z m)) (key +:+ " doit être >= " +:+ pretty m)
     | _, _ => []
     end
  ++ match s.(s_max), v with
     | Some m, VNum x =>
       when (PrimFloat.ltb (number_of_Z m) x) (key +:+ " doit être <= " +:+ pretty m)
     | _, _ => []
     end
  ++ match s.(s_minItems), v with
     | Some n, VArr l =>
       when (bool_decide (length l < n))
            (key +:+ " doit contenir au moins " +:+ pretty n +:+ " élément(s)")
     | _, _ => []
     end
  ++ match s.(s_minLength), v with
     | Some n, VStr t =>
       when (bool_decide (JsString.length t < n)) (key +:+ " trop court")
     | _, _ => []
     end.

(** The body of the [forEach] callback for one key. *)
Definition check_field (isUpdate : bool) (key : string) (s : rule)
    (v : option value) : list string :=
  if negb isUpdate && s.(s_required) && is_missing v then [key +:+ " requis"]
  else match v with
       | None | Some VNull => []
       | Some w => check_value key s w
       end.

Definition validateGame (payload : obj) (isUpdate : bool) : list string :=
  flat_map (λ '(key, s), check_field isUpdate key s (payload !! key)) gameSchema.

End Server.

(** ** Identifiers

    [ObjectId] of the MongoDB driver (bson 4), on the strings a route
    parameter can be: an id is held as its 24 lower-case hexadecimal
    digits, which is also what [toString] prints. *)
Module ObjectId.

Inductive t := Oid (hex : string).

#[global] Instance eq_dec : EqDecision t.
Proof. solve_decision. Defined.

Definition toString (o : t) : string := let 'Oid h := o in h.

Definition is_hex (a : Ascii.ascii) : bool :=
  let n := Ascii.N_of_ascii a in
  ((48 <=? n) && (n <=? 57) || (97 <=? n) && (n <=? 102)
   || (65 <=? n) && (n <=? 70))%N.

Definition lower (a : Ascii.ascii) : Ascii.ascii :=
  let n := Ascii.N_of_ascii a in
  if ((65 <=? n) && (n <=? 90))%N then Ascii.ascii_of_N (n + 32) else a.

Definition digit (n : N) : Ascii.ascii :=
  default (Ascii.ascii_of_N 48) (String.list_ascii_of_string "0123456789abcdef" !! N.to_nat n).

Definition hex_of_byte (a : Ascii.ascii) : list Ascii.ascii :=
  let n := Ascii.N_of_ascii a in [digit (n / 16); digit (n mod 16)].

(** [ObjectId.isValid(id)] on a string: 12 characters, or 24
    hexadecimal digits. *)
Definition isValid (id : string) : bool :=
  bool_decide (String.length id = 12)
  || bool_decide (String.length id = 24)
     && forallb is_hex (String.list_ascii_of_string id).

(** [new ObjectId(id)]; [None] where the constructor throws. *)
Definition new (id : string) : option t :=
  if bool_decide (String.length id = 12) then
    Some (Oid (String.string_of_list_ascii
                 (String.list_ascii_of_string id ≫= hex_of_byte)))
  else if bool_decide (String.length id = 24)
          && forallb is_hex (String.list_ascii_of_string id) then
    Some (Oid (String.string_of_list_ascii
                 (lower <$> String.list_ascii_of_string id)))
  else None.

End ObjectId.

(** ** The collection

    A stored document is its [_id] and the rest of its fields; the
    collection keeps documents in insertion order, which is the order an
    unsorted [find] returns them in. *)
Record doc := { _id : ObjectId.t; fields : obj }.

(** The driver calls a handler makes, in order. *)
Inductive call :=
| InsertOne (d : obj)
| FindOne (o : ObjectId.t)
| Find (filter : obj)
| FindOneAndUpdate (o : ObjectId.t) (set : obj)
| DeleteOne (o : ObjectId.t).

Inductive outcome (A : Type) :=
| Ok (a : A)
| Thrown.
Arguments Ok {A} a.
Arguments Thrown {A}.

(** A computation over the collection: it returns or throws, leaves a
    collection behind and a trace of driver calls. *)
Definition M (A : Type) : Type := list doc → outcome A * list doc * list call.

#[global] Instance M_ret : MRet M := λ A a st, (Ok a, st, []).

#[global] Instance M_bind : MBind M := λ A B f m st,
  match m st with
  | (Ok a, st1, c1) => let '(r, st2, c2) := f a st1 in (r, st2, c1 ++ c2)
  | (Thrown, st1, c1) => (Thrown, st1, c1)
  end.

Definition throw {A} : M A := λ st, (Thrown, st, []).

Definition has_id (o : ObjectId.t) (d : doc) : bool := bool_decide (_id d = o).

(** Equality of a query scalar with a stored value. *)
Definition scalar_eqb (q v : value) : bool :=
  match q, v with
  | VStr a, VStr b => bool_decide (a = b)
  | VBool a, VBool b => bool_decide (a = b)
  | _, _ => false
  end.

(** The store's matching of [{field: q}] for a string or boolean [q],
    the only conditions the handlers build: the field equals [q], or is
    an array with an element equal to [q]. *)
Definition field_matches (q : value) (fv : option value) : bool :=
  match fv with
  | Some (VArr l) => existsb (scalar_eqb q) l
  | Some v => scalar_eqb q v
  | None => false
  end.

Definition doc_matches (filter : obj) (d : doc) : bool :=
  forallb (λ '(k, q), field_matches q (fields d !! k)) (map_to_list filter).

(** BSON order on the sort key, as far as the handlers can produce it: a
    missing or non-date key sorts below every date. *)
Definition date_of (d : doc) (k : string) : option Z :=
  match fields d !! k with Some (VDate t) => Some t | _ => None end.

Definition key_le (a b : option Z) : Prop :=
  match a, b with
  | None, _ => True
  | Some _, None => False
  | Some x, Some y => (x ≤ y)%Z
  end.

#[global] Instance key_le_dec a b : Decision (key_le a b).
Proof. destruct a, b; simpl; apply _. Defined.

(** [sort({k: -1})]: [d1] may come before [d2]. *)
Definition desc_by (k : string) (d1 d2 : doc) : Prop :=
  key_le (date_of d2 k) (date_of d1 k).

#[global] Instance desc_by_dec k d1 d2 : Decision (desc_by k d1 d2).
Proof. unfold desc_by. apply _. Defined.

Module Collection.

(** [insertOne(doc)]: the driver generates [oid]; the server rejects a
    duplicate [_id]. *)
Definition insertOne (oid : ObjectId.t) (d : obj) : M ObjectId.t := λ st,
  if existsb (has_id oid) st then (Thrown, st, [InsertOne d])
  else (Ok oid, st ++ [ {| _id := oid; fields := d |} ], [InsertOne d]).

Definition findOne (o : ObjectId.t) : M (option doc) := λ st,
  (Ok (List.find (has_id o) st), st, [FindOne o]).

(** [find(filter).toArray()] *)
Definition find (filter : obj) : M (list doc) := λ st,
  (Ok (List.filter (doc_matches filter) st), st, [Find filter]).

(** [find(filter).sort({date_ajout: -1}).toArray()] *)
Definition find_sorted (filter : obj) (k : string) : M (list doc) := λ st,
  (Ok (merge_sort (desc_by k) (List.filter (doc_matches filter) st)), st,
   [Find filter]).

(** [$set]: the keys of [set] overwrite, the others stay. *)
Definition apply_set (set : obj) (d : doc) : doc :=
  {| _id := _id d; fields := set ∪ fields d |}.

Fixpoint update_first (o : ObjectId.t) (set : obj) (st : list doc) : list doc :=
  match st with
  | [] => []
  | d :: r => if has_id o d then apply_set set d :: r
              else d :: update_first o set r
  end.

(** [findOneAndUpdate({_id: o}, {$set: set}, {returnDocument: 'after'})],
    as its [value]. *)
Definition findOneAndUpdate (o : ObjectId.t) (set : obj) : M (option doc) := λ st,
  (Ok (apply_set set <$> List.find (has_id o) st), update_first o set st,
   [FindOneAndUpdate o set]).

Fixpoint remove_first (o : ObjectId.t) (st : list doc) : list doc :=
  match st with
  | [] => []
  | d :: r => if has_id o d then r else d :: remove_first o r
  end.

(** [deleteOne({_id: o})], as its [deletedCount]. *)
Definition deleteOne (o : ObjectId.t) : M nat := λ st,
  (Ok (if existsb (has_id o) st then 1 else 0), remove_first o st,
   [DeleteOne o]).

End Collection.

(** ** Requests and responses *)

Inductive http_method := GET | POST | PUT | DELETE.

#[global] Instance http_method_eq_dec : EqDecision http_method.
Proof. solve_decision. Defined.

(** A request as the handlers read it: [path] is the URL path split at
    [/]; [query] holds plain [?k=v] parameters, whose values are strings;
    [body] is the parsed JSON object. [clock] is what [new Date()] reads
    while the request is served and [generated] the [_id] the driver
    would generate for an insert. *)
Record request := {
  method : http_method;
  path : list string;
  query : gmap string string;
  body : obj;
  clock : Z;
  generated : ObjectId.t
}.

Record stats := {
  totalGames : nat;
  totalPlayTime : option float;
  finishedGames : nat;
  favoriteGames : nat
}.

(** What a handler passes to [res.json], or [Empty] for [res.send()]. *)
Inductive reply :=
| Errors (errors : list string)
| Error (error : string)
| Json (r : option obj)
| JsonList (l : list (option obj))
| JsonStats (s : stats)
| Empty.

Record response := {
  status : nat;
  headers : list (string * string);
  sent : reply
}.

Definition respond (code : nat) (r : reply) : response :=
  {| status := code; headers := []; sent := r |}.

Definition toResp (d : option doc) : option obj :=
  match d with
  | None => None
  | Some d =>
    Some (delete "_id" (fields d) ∪ {[ "id" := VStr (ObjectId.toString (_id d)) ]})
  end.

(** [try { ... } catch (e) { res.status(500).json(...) }] *)
Definition try_catch (m : M response) : M response := λ st,
  match m st with
  | (Thrown, st1, c) => (Ok (respond 500 (Error "erreur serveur")), st1, c)
  | r => r
  end.

Definition of_option {A} (o : option A) : M A :=
  match o with Some a => mret a | None => throw end.

Definition allowed : list string :=
  ["titre"; "genre"; "plateforme"; "editeur"; "developpeur"; "annee_sortie";
   "temps_jeu_heures"; "termine"; "favorite"].

(** [allowed.forEach(k => { if (payload[k] !== undefined) set[k] = payload[k]; })] *)
Definition whitelist (payload : obj) : obj :=
  foldl (λ set k, match payload !! k with
                  | Some v => <[k := v]> set
                  | None => set
                  end) ∅ allowed.

(** [if (c) filter[k] = v] *)
Definition set_if (c : bool) (k : string) (v : value) (filter : obj) : obj :=
  if c then <[k := v]> filter else filter.

(** The running sum of [stats]; [None] once a truthy [temps_jeu_heures]
    is not a number, where [+] is no longer an addition of doubles. *)
Definition add_hours (s : option float) (d : doc) : option float :=
  x ← s;
  if truthy (fields d !! "temps_jeu_heures") then
    match fields d !! "temps_jeu_heures" with
    | Some (VNum y) => Some (x + y)%float
    | _ => None
    end
  else Some (x + 0)%float.

Section Routes.

Variable current_year : Z.

(** The document [POST /api/games] inserts. A property a validated
    payload may leave [undefined] has a default here; [titre], [genre]
    and [plateforme] are present once validation passed. *)
Definition new_doc (payload : obj) (now : Z) : obj :=
  list_to_map
    [ ("titre", default VNull (payload !! "titre"));
      ("genre", default VNull (payload !! "genre"));
      ("plateforme", default VNull (payload !! "plateforme"));
      ("editeur", or_null (payload !! "editeur"));
      ("developpeur", or_null (payload !! "developpeur"));
      ("annee_sortie", nullish (payload !! "annee_sortie") VNull);
      ("temps_jeu_heures", nullish (payload !! "temps_jeu_heures") (VNum 0));
      ("termine", VBool (truthy (payload !! "termine")));
      ("favorite", VBool (truthy (payload !! "favorite")));
      ("date_ajout", VDate now);
      ("date_modification", VDate now) ].

(** [app.post('/api/games')] *)
Definition post_games (params : gmap string string) (req : request) : M response :=
  try_catch (
    let payload := body req in
    let errors := validateGame current_year payload false in
    if bool_decide (errors ≠ []) then mret (respond 400 (Errors errors))
    else
      let now := clock req in
      let doc := new_doc payload now in
      r ← Collection.insertOne (generated req) doc;
      inserted ← Collection.findOne r;
      mret (respond 201 (Json (toResp inserted)))).

Definition nonempty (s : option string) : bool :=
  match s with Some x => negb (bool_decide (x = "")) | None => false end.

Definition list_filter (q : gmap string string) : obj :=
  let genre := q !! "genre" in
  let plateforme := q !! "plateforme" in
  let termine := q !! "termine" in
  let favorite := q !! "favorite" in
  set_if (bool_decide (favorite = Some "false")) "favorite" (VBool false)
  (set_if (bool_decide (favorite = Some "true")) "favorite" (VBool true)
  (set_if (bool_decide (termine = Some "false")) "termine" (VBool false)
  (set_if (bool_decide (termine = Some "true")) "termine" (VBool true)
  (set_if (nonempty plateforme) "plateforme" (VStr (default "" plateforme))
  (set_if (nonempty genre) "genre" (VStr (default "" genre)) ∅))))).

(** [app.get('/api/games')] *)
Definition get_games (params : gmap string string) (req : request) : M response :=
  try_catch (
    docs ← Collection.find_sorted (list_filter (query req)) "date_ajout";
    mret (respond 200 (JsonList ((λ d, toResp (Some d)) <$> docs)))).

Definition invalid_id : response := respond 400 (Error "id invalide").
Definition not_found : response := respond 404 (Error "non trouvé").

(** [app.get('/api/games/:id')] *)
Definition get_game (params : gmap string string) (req : request) : M response :=
  try_catch (
    let id := default "" (params !! "id") in
    if negb (ObjectId.isValid id) then mret invalid_id
    else
      o ← of_option (ObjectId.new id);
      doc ← Collection.findOne o;
      match doc with
      | None => mret not_found
      | Some _ => mret (respond 200 (Json (toResp doc)))
      end).

(** [app.put('/api/games/:id')] *)
Definition put_game (params : gmap string string) (req : request) : M response :=
  try_catch (
    let id := default "" (params !! "id") in
    if negb (ObjectId.isValid id) then mret invalid_id
    else
      let payload := body req in
      let errors := validateGame current_year payload true in
      if bool_decide (errors ≠ []) then mret (respond 400 (Errors errors))
      else
        let set := whitelist payload in
        if bool_decide (size set = 0) then
          mret (respond 400 (Error "Aucun champ à mettre à jour"))
        else
          let set := <["date_modification" := VDate (clock req)]> set in
          o ← of_option (ObjectId.new id);
          r ← Collection.findOneAndUpdate o set;
          match r with
          | None => mret not_found
          | Some _ => mret (respond 200 (Json (toResp r)))
          end).

(** [app.delete('/api/games/:id')] *)
Definition delete_game (params : gmap string string) (req : request) : M response :=
  try_catch (
    let id := default "" (params !! "id") in
    if negb (ObjectId.isValid id) then mret invalid_id
    else
      o ← of_option (ObjectId.new id);
      deletedCount ← Collection.deleteOne o;
      if bool_decide (deletedCount = 0) then mret not_found
      else mret (respond 204 Empty)).

(** [app.post('/api/games/:id/favorite')] *)
Definition post_favorite (params : gmap string string) (req : request) : M response :=
  try_catch (
    let id := default "" (params !! "id") in
    if negb (ObjectId.isValid id) then mret invalid_id
    else
      o ← of_option (ObjectId.new id);
      g ← Collection.findOne o;
      match g with
      | None => mret not_found
      | Some g =>
        o' ← of_option (ObjectId.new id);
        r ← Collection.findOneAndUpdate o'
              (<["favorite" := VBool (negb (truthy (fields g !! "favorite")))]>
               (<["date_modification" := VDate (clock req)]> ∅));
        mret (respond 200 (Json (toResp r)))
      end).

(** [app.get('/api/stats')] *)
Definition get_stats (params : gmap string string) (req : request) : M response :=
  try_catch (
    docs ← Collection.find ∅;
    let total := length docs in
    let totalHours := foldl add_hours (Some 0%float) docs in
    let finished := length (List.filter (λ d, truthy (fields d !! "termine")) docs) in
    let favs := length (List.filter (λ d, truthy (fields d !! "favorite")) docs) in
    mret (respond 200 (JsonStats {| totalGames := total; totalPlayTime := totalHours;
                                    finishedGames := finished; favoriteGames := favs |}))).

(** [app.get('/api/games/export')] *)
Definition get_export (params : gmap string string) (req : request) : M response :=
  try_catch (
    docs ← Collection.find ∅;
    mret {| status := 200;
            headers := [("Content-Disposition", "attachment; filename=games.json")];
            sent := JsonList ((λ d, toResp (Some d)) <$> docs) |}).

(** *** The router

    Express tries the routes in the order they were registered and runs
    the first whose method and path pattern match; no handler here calls
    [next], so that one writes the response. *)
Inductive segment := Lit (s : string) | Param (name : string).

Fixpoint match_path (pattern : list segment) (p : list string)
    : option (gmap string string) :=
  match pattern, p with
  | [], [] => Some ∅
  | Lit s :: pattern', x :: p' =>
    if bool_decide (x = s) then match_path pattern' p' else None
  | Param name :: pattern', x :: p' =>
    if bool_decide (x = "") then None
    else <[name := x]> <$> match_path pattern' p'
  | _, _ => None
  end.

Record route := {
  route_method : http_method;
  route_path : list segment;
  route_handler : gmap string string → request → M response
}.

(** The [app.METHOD] calls of the file, top to bottom. *)
Definition routes : list route :=
  [ {| route_method := POST; route_path := [Lit "api"; Lit "games"];
       route_handler := post_games |};
    {| route_method := GET; route_path := [Lit "api"; Lit "games"];
       route_handler := get_games |};
    {| route_method := GET; route_path := [Lit "api"; Lit "games"; Param "id"];
       route_handler := get_game |};
    {| route_method := PUT; route_path := [Lit "api"; Lit "games"; Param "id"];
       route_handler := put_game |};
    {| route_method := DELETE; route_path := [Lit "api"; Lit "games"; Param "id"];
       route_handler := delete_game |};
    {| route_method := POST;
       route_path := [Lit "api"; Lit "games"; Param "id"; Lit "favorite"];
       route_handler := post_favorite |};
    {| route_method := GET; route_path := [Lit "api"; Lit "stats"];
       route_handler := get_stats |};
    {| route_method := GET; route_path := [Lit "api"; Lit "games"; Lit "export"];
       route_handler := get_export |} ].

Fixpoint first_match (rs : list route) (req : request) : option (M response) :=
  match rs with
  | [] => None
  | r :: rs' =>
    if bool_decide (route_method r = method req) then
      match match_path (route_path r) (path req) with
      | Some params => Some (route_handler r params req)
      | None => first_match rs' req
      end
    else first_match rs' req
  end.

(** The handler that serves [req]; [None] when the request falls through
    to the static-file middleware, which never touches the collection. *)
Definition dispatch (req : request) : option (M response) :=
  first_match routes req.

(** The collections the server can hold: empty at first, then whatever
    a served request leaves. *)
Inductive reachable : list doc → Prop :=
| reachable_empty : reachable []
| reachable_step st req h :
    reachable st → dispatch req = Some h → reachable (h st).1.2.

End Routes.

Definition celeste : obj :=
  <["titre" := VStr "Celeste"]>
  (<["genre" := VArr [VStr "platformer"]]>
  (<["plateforme" := VArr [VStr "PC"]]> ∅)).

Definition oid1 : ObjectId.t := ObjectId.Oid "0123456789abcdef01234567".

Definition mk_req (m : http_method) (p : list string) (b : obj) : request :=
  {| method := m; path := p; query := ∅; body := b; clock := 1000;
     generated := oid1 |}.

(** A request whose route parameters and body are as given. *)
Definition export_request (q : gmap string string) (b : obj) (t : Z)
    (g : ObjectId.t) : request :=
  {| method := GET; path := ["api"; "games"; "export"]; query := q; body := b;
     clock := t; generated := g |}.

(** ** The validation rules as the specification words them

    A second reading of the rule table, independent of [check_field]:
    which check a value violates, and the message of each check. *)
Inductive check := Presence | TypeCheck | Minimum | Maximum | MinItems | MinLength.

Definition whitespace_only (s : string) : bool :=
  forallb JsString.is_space (JsString.code_points s).

(** Absent, null, an empty or whitespace-only string, or an empty
    sequence. *)
Definition lacks (v : option value) : bool :=
  match v with
  | None | Some VNull => true
  | Some (VStr s) => whitespace_only s
  | Some (VArr []) => true
  | Some _ => false
  end.

Definition matches_type (t : schema_type) (v : value) : bool :=
  match t, v with
  | SString, VStr _ | SArray, VArr _ | SNumber, VNum _ | SBoolean, VBool _ => true
  | _, _ => false
  end.

Definition violates (isUpdate : bool) (s : rule) (v : option value) (c : check) : bool :=
  match c with
  | Presence => negb isUpdate && s.(s_required) && lacks v
  | TypeCheck =>
    match v with
    | None | Some VNull => false
    | Some w => negb (matches_type s.(s_type) w)
    end
  | Minimum =>
    match s.(s_min), v with
    | Some m, Some (VNum x) => PrimFloat.ltb x (number_of_Z m)
    | _, _ => false
    end
  | Maximum =>
    match s.(s_max), v with
    | Some m, Some (VNum x) => PrimFloat.ltb (number_of_Z m) x
    | _, _ => false
    end
  | MinItems =>
    match s.(s_minItems), v with
    | Some n, Some (VArr l) => length l <? n
    | _, _ => false
    end
  | MinLength =>
    match s.(s_minLength), v with
    | Some n, Some (VStr t) => JsString.length t <? n
    | _, _ => false
    end
  end.

Definition type_description (t : schema_type) : string :=
  match t with
  | SString => "une chaîne"
  | SArray => "un tableau"
  | SNumber => "un nombre"
  | SBoolean => "boolean"
  end.

Definition message (key : string) (s : rule) (c : check) : string :=
  match c with
  | Presence => key +:+ " requis"
  | TypeCheck => key +:+ " doit être " +:+ type_description s.(s_type)
  | Minimum => key +:+ " doit être >= " +:+ from_option pretty "" s.(s_min)
  | Maximum => key +:+ " doit être <= " +:+ from_option pretty "" s.(s_max)
  | MinItems =>
    key +:+ " doit contenir au moins " +:+ from_option pretty "" s.(s_minItems)
        +:+ " élément(s)"
  | MinLength => key +:+ " trop court"
  end.

(** The document a successful [POST /api/games] leaves in the collection. *)
Definition inserted_doc (req : request) : doc :=
  {| _id := generated req; fields := new_doc (body req) (clock req) |}.

Definition stored_celeste : doc :=
  inserted_doc (mk_req POST ["api"; "games"] celeste).

Definition celeste_yes : obj := <["favorite" := VStr "yes"]> celeste.

Definition no_fields : response :=
  respond 400 (Error "Aucun champ à mettre à jour").

(** The [$set] document of an update that reaches the collection. *)
Definition update_set (req : request) : obj :=
  <["date_modification" := VDate (clock req)]> (whitelist (body req)).

(** ** What the collection keeps true *)

Definition field_is (P : value → Prop) (k : string) (d : doc) : Prop :=
  ∃ v, fields d !! k = Some v ∧ P v.

(** [null], or a string of at least one character. *)
Definition titre_value (v : value) : Prop :=
  v = VNull ∨ ∃ s, v = VStr s ∧ s ≠ "".

Definition termine_value (v : value) : Prop :=
  v = VNull ∨ ∃ b, v = VBool b.

Definition date_value (v : value) : Prop := ∃ t, v = VDate t.

Definition doc_ok (d : doc) : Prop :=
  field_is titre_value "titre" d
  ∧ field_is termine_value "termine" d
  ∧ field_is date_value "date_ajout" d.

Definition store_ok (st : list doc) : Prop :=
  NoDup (_id <$> st) ∧ Forall doc_ok st.

(** A string that is not empty once trimmed, the constraint the data
    model puts on [titre]. *)
Definition titre_trimmed (d : doc) : Prop :=
  ∃ s, fields d !! "titre" = Some (VStr s) ∧ JsString.trim s ≠ [].

(** The collection after [create(celeste)] and then an update of that
    record with [payload]. *)
Definition after_update (payload : obj) : list doc :=
  (put_game 2026 {[ "id" := "0123456789abcdef01234567" ]}
     (mk_req PUT ["api"; "games"; "0123456789abcdef01234567"] payload)
     [stored_celeste]).1.2.

(** ** [list] as the specification words it

    [genre] and [plateforme] select by the store's equality match;
    [termine] and [favorite] select only when they are the literal
    ["true"] or ["false"]. *)
Definition text_filter (s : option string) (fv : option value) : bool :=
  match s with
  | Some g => if bool_decide (g = "") then true else field_matches (VStr g) fv
  | None => true
  end.

Definition flag_filter (s : option string) (fv : option value) : bool :=
  if bool_decide (s = Some "true") then field_matches (VBool true) fv
  else if bool_decide (s = Some "false") then field_matches (VBool false) fv
  else true.

Definition selected (q : gmap string string) (d : doc) : bool :=
  text_filter (q !! "genre") (fields d !! "genre")
  && text_filter (q !! "plateforme") (fields d !! "plateforme")
  && flag_filter (q !! "termine") (fields d !! "termine")
  && flag_filter (q !! "favorite") (fields d !! "favorite").

(** [d1] was added no earlier than [d2]. *)
Definition added_before (d1 d2 : doc) : Prop :=
  ∃ t1 t2, fields d1 !! "date_ajout" = Some (VDate t1)
           ∧ fields d2 !! "date_ajout" = Some (VDate t2) ∧ (t2 ≤ t1)%Z.

Definition with_query (q : gmap string string) (req : request) : request :=
  {| method := method req; path := path req; query := q; body := body req;
     clock := clock req; generated := generated req |}.

(** ** The shape of stored documents *)

(** The keys of the document [POST /api/games] builds. *)
Definition doc_keys : list string :=
  ["titre"; "genre"; "plateforme"; "editeur"; "developpeur"; "annee_sortie";
   "temps_jeu_heures"; "termine"; "favorite"; "date_ajout";
   "date_modification"].

Definition has_shape (d : doc) : Prop :=
  dom (fields d) = (list_to_set doc_keys : gset string).

(** [null], or a value that passes every type, range and length check of
    the schema entry [s]. *)
Definition conforms (s : rule) (v : value) : Prop :=
  v = VNull ∨ ∀ c, c ≠ Presence → violates true s (Some v) c = false.

(** The [$set] document of [POST /api/games/:id/favorite] on a record
    whose [favorite] reads [old]. *)
Definition favorite_set (old : option value) (now : Z) : obj :=
  <["favorite" := VBool (negb (truthy old))]>
  (<["date_modification" := VDate now]> ∅).

Definition status_of (r : outcome response) : nat :=
  match r with Ok x => status x | Thrown => 0 end.

Definition headers_of (r : outcome response) : list (string * string) :=
  match r with Ok x => headers x | Thrown => [] end.

(** Every schema field of [d] is there and conforms to its entry. *)
Definition doc_conforms (year : Z) (d : doc) : Prop :=
  ∀ key s, (key, s) ∈ gameSchema year → field_is (conforms s) key d.

(** ** The routing table, read as a relation

    [served year req h]: the request has one of these seven shapes and
    [h] is the handler registered for it, applied to the route
    parameters. *)
Definition served (year : Z) (req : request) (h : M response) : Prop :=
  (method req = POST ∧ path req = ["api"; "games"] ∧ h = post_games year ∅ req)
  ∨ (method req = GET ∧ path req = ["api"; "games"] ∧ h = get_games ∅ req)
  ∨ (∃ x, x ≠ "" ∧ path req = ["api"; "games"; x]
          ∧ (method req = GET ∧ h = get_game {[ "id" := x ]} req
             ∨ method req = PUT ∧ h = put_game year {[ "id" := x ]} req
             ∨ method req = DELETE ∧ h = delete_game {[ "id" := x ]} req))
  ∨ (∃ x, x ≠ "" ∧ method req = POST
          ∧ path req = ["api"; "games"; x; "favorite"]
          ∧ h = post_favorite {[ "id" := x ]} req)
  ∨ (method req = GET ∧ path req = ["api"; "stats"] ∧ h = get_stats ∅ req).

(** The documents [GET /api/games] finds, in the order it returns them. *)
Definition listed (q : gmap string string) (st : list doc) : list doc :=
  merge_sort (desc_by "date_ajout")
    (List.filter (doc_matches (list_filter q)) st).

(** * Properties *)

Example validate_celeste year : validateGame year celeste false = [].
Proof. reflexivity. Qed.

Example validate_empty year :
  validateGame year ∅ false = ["titre requis"; "genre requis"; "plateforme requis"].
Proof. reflexivity. Qed.

Example validate_1969 :
  validateGame 2026 {[ "annee_sortie" := VNum 1969 ]} true
  = ["annee_sortie doit être >= 1970"].
Proof. reflexivity. Qed.

Example validate_several :
  validateGame 2026
    (<["annee_sortie" := VNum 2027.5]>
     (<["titre" := VStr ""]> (<["termine" := VStr "x"]> ∅))) true
  = ["titre trop court"; "annee_sortie doit être <= 2026";
     "termine doit être boolean"].
Proof. vm_compute. reflexivity. Qed.

Example new_upper_case : ObjectId.new "0123456789ABCDEF01234567" = Some oid1.
Proof. vm_compute. reflexivity. Qed.

(** ** Routing *)

Lemma isValid_export : ObjectId.isValid "export" = false.
Proof. reflexivity. Qed.

(** A [GET] of a three-segment path under [/api/games] is served by the
    [:id] handler, whatever the third segment is. *)
Lemma dispatch_get_game year req x :
  method req = GET → path req = ["api"; "games"; x] → x ≠ "" →
  dispatch year req = Some (get_game {[ "id" := x ]} req).
Proof.
  intros Hm Hp Hx. unfold dispatch, routes. cbn [first_match route_method].
  rewrite Hm, Hp. rewrite (bool_decide_false (POST = GET)) by done.
  rewrite (bool_decide_true (GET = GET)) by done.
  cbn [route_path match_path]. rewrite !bool_decide_true by done.
  by rewrite (bool_decide_false (x = "")) by done.
Qed.

(** C1. A [GET /api/games/export] request never reaches the export
    handler: the [/api/games/:id] route, registered earlier, takes it with
    [id = "export"], which is not a valid identifier, so for every
    collection the reply is [400 id invalide], the collection is not read,
    and the reply is not the one the export handler gives. *)
Theorem export_route_shadowed year q b t g (st : list doc) :
  dispatch year (export_request q b t g)
  = Some (get_game {[ "id" := "export" ]} (export_request q b t g))
  ∧ get_game {[ "id" := "export" ]} (export_request q b t g) st
    = (Ok (respond 400 (Error "id invalide")), st, [])
  ∧ ∀ params,
      get_export params (export_request q b t g) st
      ≠ get_game {[ "id" := "export" ]} (export_request q b t g) st.
Proof.
  assert (get_game {[ "id" := "export" ]} (export_request q b t g) st
          = (Ok (respond 400 (Error "id invalide")), st, [])) as Hrun.
  { unfold get_game, try_catch. rewrite lookup_singleton_eq.
    change (default "" (Some "export")) with "export".
    by rewrite isValid_export. }
  split; [|split; [done|]].
  - by apply dispatch_get_game.
  - intros params. rewrite Hrun.
    unfold get_export, try_catch, mbind, M_bind, Collection.find. simpl.
    intros [=].
Qed.

(** ** The validator, field by field *)

Lemma validate_elem year (payload : obj) isUpdate e :
  e ∈ validateGame year payload isUpdate ↔
  ∃ key s, (key, s) ∈ gameSchema year
           ∧ e ∈ check_field isUpdate key s (payload !! key).
Proof.
  unfold validateGame. rewrite list_elem_of_In, in_flat_map. split.
  - intros [[key s] [Hin He]]. exists key, s.
    by rewrite !list_elem_of_In.
  - intros (key & s & Hin & He). exists (key, s).
    by rewrite <- !list_elem_of_In.
Qed.

Lemma validate_nil year (payload : obj) isUpdate key s :
  validateGame year payload isUpdate = [] →
  (key, s) ∈ gameSchema year →
  check_field isUpdate key s (payload !! key) = [].
Proof.
  intros Hnil Hin.
  destruct (check_field isUpdate key s (payload !! key)) as [|e l] eqn:E; [done|].
  assert (e ∈ validateGame year payload isUpdate) as He.
  { apply validate_elem. exists key, s. rewrite E. split; [done | left]. }
  rewrite Hnil in He. by apply elem_of_nil in He.
Qed.

(** The validator reads the payload only at the schema's keys. *)
Lemma validate_ext year (p q : obj) isUpdate :
  (∀ key s, (key, s) ∈ gameSchema year → p !! key = q !! key) →
  validateGame year p isUpdate = validateGame year q isUpdate.
Proof.
  unfold validateGame. generalize (gameSchema year). intros l H.
  induction l as [|[key s] l IH]; [done|].
  cbn [flat_map]. rewrite (H key s) by left.
  f_equal. apply IH. intros k r Hin. apply (H k r). by right.
Qed.

Lemma schema_keys year key s :
  (key, s) ∈ gameSchema year →
  key ∈ ["titre"; "genre"; "plateforme"; "editeur"; "developpeur";
         "annee_sortie"; "temps_jeu_heures"; "termine"].
Proof.
  unfold gameSchema. rewrite !elem_of_cons, elem_of_nil.
  intros H. repeat destruct H as [H|H]; try done;
    injection H as -> _; set_solver.
Qed.

Lemma when_elem b msg e : e ∈ when b msg ↔ b = true ∧ e = msg.
Proof.
  destruct b; simpl.
  - rewrite list_elem_of_singleton. naive_solver.
  - rewrite elem_of_nil. naive_solver.
Qed.

(** ** One field at a time *)

Lemma trimStart_nil cs :
  JsString.trimStart cs = [] ↔ forallb JsString.is_space cs = true.
Proof.
  induction cs as [|c cs IH]; simpl; [done|].
  destruct (JsString.is_space c); [done|]. split; discriminate.
Qed.

Lemma trimStart_head cs x r :
  JsString.trimStart cs = x :: r → JsString.is_space x = false.
Proof.
  induction cs as [|c cs IH]; simpl; [done|].
  destruct (JsString.is_space c) eqn:E; [done|]. by intros [= <- _].
Qed.

(** [v.trim() === ''] says that [v] is whitespace only. *)
Lemma trim_nil s : JsString.trim s = [] ↔ whitespace_only s = true.
Proof.
  unfold JsString.trim, whitespace_only. rewrite <- trimStart_nil.
  split; [|by intros ->].
  intros H. apply (f_equal reverse) in H. rewrite reverse_involutive in H.
  change (reverse []) with (@nil N) in H. apply trimStart_nil in H.
  destruct (JsString.trimStart (JsString.code_points s)) as [|x r] eqn:E; [done|].
  apply trimStart_head in E.
  rewrite reverse_cons, forallb_app in H. simpl in H.
  rewrite E in H. by rewrite andb_false_r in H.
Qed.

Lemma is_missing_lacks v : is_missing v = lacks v.
Proof.
  destruct v as [[| | |s|l| |]|]; simpl; try done.
  - apply eq_true_iff_eq. rewrite bool_decide_eq_true. apply trim_nil.
  - by destruct l.
Qed.

Lemma check_value_elem key s w e :
  w ≠ VNull →
  e ∈ check_value key s w ↔
  ∃ c, c ≠ Presence ∧ violates true s (Some w) c = true ∧ e = message key s c.
Proof.
  intros Hnull. destruct s as [t req mn mx mi ml].
  unfold check_value. cbn [s_type s_min s_max s_minItems s_minLength].
  rewrite !elem_of_app, !when_elem. split.
  - intros [H|[H|[H|[H|[H|[H|[H|H]]]]]]].
    + destruct H as [H ->]. exists TypeCheck. by destruct t, w.
    + destruct H as [H ->]. exists TypeCheck. by destruct t, w.
    + destruct H as [H ->]. exists TypeCheck. by destruct t, w.
    + destruct H as [H ->]. exists TypeCheck. by destruct t, w.
    + exists Minimum.
      destruct mn, w; try (by apply elem_of_nil in H).
      by apply when_elem in H as [H ->].
    + exists Maximum.
      destruct mx, w; try (by apply elem_of_nil in H).
      by apply when_elem in H as [H ->].
    + exists MinItems.
      destruct mi, w; try (by apply elem_of_nil in H).
      apply when_elem in H as [H ->]. apply bool_decide_eq_true in H.
      split; [done|]. split; [|done]. by apply Nat.ltb_lt.
    + exists MinLength.
      destruct ml, w; try (by apply elem_of_nil in H).
      apply when_elem in H as [H ->]. apply bool_decide_eq_true in H.
      split; [done|]. split; [|done]. by apply Nat.ltb_lt.
  - intros (c & Hc & Hv & ->). destruct c; [done|..]; simpl in Hv.
    + destruct t, w; simpl in *; try done; tauto.
    + do 4 right. left. destruct mn, w; try done.
      by apply when_elem.
    + do 5 right. left. destruct mx, w; try done.
      by apply when_elem.
    + do 6 right. left. destruct mi, w; try done.
      apply when_elem. split; [|done].
      apply bool_decide_eq_true. by apply Nat.ltb_lt.
    + do 7 right. destruct ml, w; try done.
      apply when_elem. split; [|done].
      apply bool_decide_eq_true. by apply Nat.ltb_lt.
Qed.

Lemma violates_mode isUpdate s v c :
  c ≠ Presence → violates isUpdate s v c = violates true s v c.
Proof. by destruct c. Qed.

(** What one field contributes: the presence error alone when the
    presence check fails, otherwise one message for each other check the
    value violates. *)
Lemma check_field_elem isUpdate key s v e :
  e ∈ check_field isUpdate key s v ↔
  ∃ c, violates isUpdate s v c = true
       ∧ (c = Presence ∨ violates isUpdate s v Presence = false)
       ∧ e = message key s c.
Proof.
  unfold check_field. rewrite is_missing_lacks.
  change (negb isUpdate && s_required s && lacks v)
    with (violates isUpdate s v Presence).
  destruct (violates isUpdate s v Presence) eqn:P.
  - rewrite list_elem_of_singleton. split.
    + intros ->. exists Presence. by rewrite P; auto.
    + intros (c & Hc & [->|?] & ->); done.
  - assert (∀ c, violates isUpdate s v c = true → c ≠ Presence) as Hne.
    { intros c Hc ->. congruence. }
    destruct v as [w|].
    + assert (w = VNull ∨ w ≠ VNull) as [->|Hw]
        by (destruct w; auto; by right).
      * rewrite elem_of_nil. split; [done|].
        intros (c & Hc & _ & _). specialize (Hne c Hc).
        destruct c; [done|simpl in Hc..]; try done;
          by destruct (s_min s), (s_max s), (s_minItems s), (s_minLength s).
      * transitivity (e ∈ check_value key s w); [by destruct w|].
        rewrite check_value_elem by done. split.
        -- intros (c & Hc & Hv & ->). exists c.
           rewrite violates_mode by done. auto.
        -- intros (c & Hv & _ & ->). exists c. specialize (Hne c Hv).
           by rewrite <- (violates_mode isUpdate).
    + rewrite elem_of_nil. split; [done|].
      intros (c & Hc & _ & _). specialize (Hne c Hc).
      destruct c; [done|simpl in Hc..]; try done;
        by destruct (s_min s), (s_max s), (s_minItems s), (s_minLength s).
Qed.

(** Every message starts with the name of the field it is about. *)
Lemma check_field_prefix isUpdate key s v e :
  e ∈ check_field isUpdate key s v → ∃ rest, e = key +:+ rest.
Proof.
  intros (c & _ & _ & ->)%check_field_elem. destruct c; simpl; eauto.
Qed.

Lemma schema_keys_allowed year key s : (key, s) ∈ gameSchema year → key ∈ allowed.
Proof.
  intros Hin%schema_keys. unfold allowed.
  rewrite !elem_of_cons in *. tauto.
Qed.

(** ** Running the handlers *)

Lemma find_fresh o (st : list doc) :
  (∀ d, d ∈ st → _id d ≠ o) → List.find (has_id o) st = None.
Proof.
  induction st as [|d st IH]; intros H; [done|]. simpl.
  unfold has_id at 1. rewrite bool_decide_false by (apply H; left).
  apply IH. intros d' Hd'. apply H. by right.
Qed.

Lemma existsb_fresh o (st : list doc) :
  (∀ d, d ∈ st → _id d ≠ o) → existsb (has_id o) st = false.
Proof.
  induction st as [|d st IH]; intros H; [done|]. simpl.
  unfold has_id at 1. rewrite bool_decide_false by (apply H; left).
  apply IH. intros d' Hd'. apply H. by right.
Qed.

Lemma find_app_fresh o (st : list doc) d :
  (∀ d', d' ∈ st → _id d' ≠ o) → _id d = o →
  List.find (has_id o) (st ++ [d]) = Some d.
Proof.
  intros Hst Hd. induction st as [|a st IH]; simpl.
  - unfold has_id. by rewrite bool_decide_true.
  - unfold has_id at 1. rewrite bool_decide_false by (apply Hst; left).
    apply IH. intros d' Hd'. apply Hst. by right.
Qed.

(** A payload that passes validation is inserted under the generated
    identifier, read back and returned. *)
Lemma post_games_accepts year params req (st : list doc) :
  validateGame year (body req) false = [] →
  (∀ d, d ∈ st → _id d ≠ generated req) →
  post_games year params req st
  = (Ok (respond 201 (Json (toResp (Some (inserted_doc req))))),
     st ++ [inserted_doc req],
     [InsertOne (fields (inserted_doc req)); FindOne (generated req)]).
Proof.
  intros Hv Hfresh. unfold post_games, try_catch. rewrite Hv.
  rewrite bool_decide_false by (intros H; by apply H).
  unfold mbind, M_bind, Collection.insertOne, Collection.findOne.
  rewrite existsb_fresh by done.
  fold (inserted_doc req).
  rewrite (find_app_fresh (generated req) st (inserted_doc req)) by done.
  reflexivity.
Qed.

(** A payload that fails validation is answered with the whole error
    list before any driver call. *)
Lemma post_games_rejects year params req (st : list doc) :
  validateGame year (body req) false ≠ [] →
  post_games year params req st
  = (Ok (respond 400 (Errors (validateGame year (body req) false))), st, []).
Proof.
  intros Hv. unfold post_games, try_catch.
  by rewrite bool_decide_true.
Qed.

Lemma put_game_rejects year params req id (st : list doc) :
  params !! "id" = Some id → ObjectId.isValid id = true →
  validateGame year (body req) true ≠ [] →
  put_game year params req st
  = (Ok (respond 400 (Errors (validateGame year (body req) true))), st, []).
Proof.
  intros Hid Hvalid Hv. unfold put_game, try_catch.
  rewrite Hid. simpl. rewrite Hvalid. simpl.
  by rewrite bool_decide_true.
Qed.

(** ** The validator and [favorite] *)

(** C2, as the claim states it, at a concrete payload: [favorite] holds a
    string, and the validator returns no error at all, in update mode and
    in create mode. *)
Lemma favorite_string_not_reported :
  ({[ "favorite" := VStr "yes" ]} : obj) !! "favorite" = Some (VStr "yes")
  ∧ validateGame 2026 {[ "favorite" := VStr "yes" ]} true = []
  ∧ validateGame 2026 (<["favorite" := VStr "yes"]> celeste) false = [].
Proof. by vm_compute. Qed.

(** C2, amended. The schema has no entry for [favorite]: in both modes
    the validator returns the same list whatever [favorite] holds, and no
    message of the list is about [favorite]. The boolean type check exists
    for [termine] only: a [termine] that is present, not null and not a
    boolean is reported as [termine doit être boolean]. *)
Theorem favorite_not_validated year (payload : obj) isUpdate v w :
  validateGame year (<["favorite" := v]> payload) isUpdate
  = validateGame year (delete "favorite" payload) isUpdate
  ∧ (∀ e, e ∈ validateGame year payload isUpdate →
          String.prefix "favorite" e = false)
  ∧ (payload !! "termine" = Some w → w ≠ VNull → typeof w ≠ TyBoolean →
     "termine doit être boolean" ∈ validateGame year payload isUpdate).
Proof.
  split; [|split].
  - apply validate_ext. intros key s Hin.
    apply schema_keys in Hin.
    assert (key ≠ "favorite") by (intros ->; set_solver).
    by rewrite lookup_insert_ne, lookup_delete_ne.
  - intros e (key & s & Hin & He)%validate_elem.
    apply check_field_prefix in He as [rest ->].
    apply schema_keys in Hin.
    rewrite !elem_of_cons, elem_of_nil in Hin.
    repeat destruct Hin as [->|Hin]; done.
  - intros Hw Hnull Hty. apply validate_elem.
    exists "termine", (mk_rule SBoolean false). split.
    { unfold gameSchema. set_solver. }
    rewrite Hw. unfold check_field.
    rewrite andb_false_r. simpl.
    destruct w; try done; unfold check_value; simpl; set_solver.
Qed.

Lemma favorite_not_validated_witness :
  "termine doit être boolean"
  ∈ validateGame 2026 {[ "termine" := VStr "oui" ]} false.
Proof.
  apply (favorite_not_validated 2026 {[ "termine" := VStr "oui" ]} false
           VNull (VStr "oui")); [reflexivity | discriminate | discriminate].
Defined.

(** ** Updates that fail validation *)

(** C4. For every well-formed id (so for the id of every existing
    record), [update(id, {annee_sortie: 1969})] is answered with the
    validation error list, which holds [annee_sortie doit être >= 1970];
    no driver call is made and the collection, with every field of every
    record, is what it was. *)
Theorem update_year_1969_rejected year params req id (st : list doc) :
  params !! "id" = Some id → ObjectId.isValid id = true →
  body req = {[ "annee_sortie" := VNum 1969 ]} →
  ∃ errors,
    put_game year params req st = (Ok (respond 400 (Errors errors)), st, [])
    ∧ "annee_sortie doit être >= 1970" ∈ errors.
Proof.
  intros Hid Hvalid Hbody.
  assert ("annee_sortie doit être >= 1970"
          ∈ validateGame year (body req) true) as Hin.
  { apply validate_elem. eexists "annee_sortie", _. split.
    - unfold gameSchema. do 5 right. left.
    - rewrite Hbody, lookup_singleton_eq. unfold check_field, check_value.
      simpl. left. }
  exists (validateGame year (body req) true). split; [|done].
  apply (put_game_rejects year params req id); [done..|].
  intros Hnil. rewrite Hnil in Hin. by apply elem_of_nil in Hin.
Qed.

Lemma update_year_1969_rejected_witness :
  ∃ errors,
    put_game 2026 {[ "id" := "0123456789abcdef01234567" ]}
      (mk_req PUT ["api"; "games"; "0123456789abcdef01234567"]
              {[ "annee_sortie" := VNum 1969 ]}) [stored_celeste]
    = (Ok (respond 400 (Errors errors)), [stored_celeste], [])
    ∧ "annee_sortie doit être >= 1970" ∈ errors.
Proof.
  apply (update_year_1969_rejected 2026 _ _ "0123456789abcdef01234567");
    reflexivity.
Defined.

(** ** Creation *)

(** C9. [create({titre: "Celeste", genre: ["platformer"], plateforme:
    ["PC"]})] succeeds when the generated id is new to the collection:
    the reply is [201] with the created record, in which
    [temps_jeu_heures] is [0], [termine] and [favorite] are [false], and
    [date_ajout] and [date_modification] are both the time of the
    request. *)
Theorem create_celeste year params req (st : list doc) :
  body req = celeste →
  (∀ d, d ∈ st → _id d ≠ generated req) →
  ∃ r,
    post_games year params req st
    = (Ok (respond 201 (Json (Some r))), st ++ [inserted_doc req],
       [InsertOne (fields (inserted_doc req)); FindOne (generated req)])
    ∧ r !! "id" = Some (VStr (ObjectId.toString (generated req)))
    ∧ r !! "titre" = Some (VStr "Celeste")
    ∧ r !! "temps_jeu_heures" = Some (VNum 0)
    ∧ r !! "termine" = Some (VBool false)
    ∧ r !! "favorite" = Some (VBool false)
    ∧ r !! "date_ajout" = Some (VDate (clock req))
    ∧ r !! "date_modification" = r !! "date_ajout".
Proof.
  intros Hbody Hfresh. eexists. split.
  - apply post_games_accepts; [|done]. by rewrite Hbody.
  - unfold inserted_doc. rewrite Hbody. repeat split; reflexivity.
Qed.

Lemma create_celeste_witness :
  ∃ r,
    post_games 2026 ∅ (mk_req POST ["api"; "games"] celeste) []
    = (Ok (respond 201 (Json (Some r))), [stored_celeste],
       [InsertOne (fields stored_celeste); FindOne oid1])
    ∧ r !! "id" = Some (VStr "0123456789abcdef01234567")
    ∧ r !! "titre" = Some (VStr "Celeste")
    ∧ r !! "temps_jeu_heures" = Some (VNum 0)
    ∧ r !! "termine" = Some (VBool false)
    ∧ r !! "favorite" = Some (VBool false)
    ∧ r !! "date_ajout" = Some (VDate 1000)
    ∧ r !! "date_modification" = r !! "date_ajout".
Proof.
  apply (create_celeste 2026 ∅ (mk_req POST ["api"; "games"] celeste) []).
  - reflexivity.
  - intros d Hd. by apply elem_of_nil in Hd.
Defined.

(** C10. For every payload that [create] accepts, the stored [termine]
    and [favorite] are the booleans [!!payload.termine] and
    [!!payload.favorite]. [favorite] is accepted whatever it holds: the
    payload passes validation with any other [favorite] too, and the
    string ["yes"] is stored as [true], the number [0] as [false]. *)
Theorem create_coerces_booleans year params req (st : list doc) :
  validateGame year (body req) false = [] →
  (∀ d, d ∈ st → _id d ≠ generated req) →
  ∃ d,
    (post_games year params req st).1
    = (Ok (respond 201 (Json (toResp (Some d)))), st ++ [d])
    ∧ fields d !! "termine" = Some (VBool (truthy (body req !! "termine")))
    ∧ fields d !! "favorite" = Some (VBool (truthy (body req !! "favorite")))
    ∧ (∀ v, validateGame year (<["favorite" := v]> (body req)) false = [])
    ∧ truthy (Some (VStr "yes")) = true
    ∧ truthy (Some (VNum 0)) = false.
Proof.
  intros Hv Hfresh. exists (inserted_doc req). split; [|repeat split].
  - by rewrite post_games_accepts.
  - intros v. rewrite <- Hv. apply validate_ext. intros key s Hin.
    apply schema_keys in Hin.
    assert (key ≠ "favorite") by (intros ->; set_solver).
    by rewrite lookup_insert_ne.
Qed.

Lemma create_coerces_booleans_witness :
  ∃ d,
    (post_games 2026 ∅ (mk_req POST ["api"; "games"] celeste_yes) []).1
    = (Ok (respond 201 (Json (toResp (Some d)))), [d])
    ∧ fields d !! "termine" = Some (VBool false)
    ∧ fields d !! "favorite" = Some (VBool true)
    ∧ (∀ v, validateGame 2026 (<["favorite" := v]> celeste_yes) false = [])
    ∧ truthy (Some (VStr "yes")) = true
    ∧ truthy (Some (VNum 0)) = false.
Proof.
  apply (create_coerces_booleans 2026 ∅
           (mk_req POST ["api"; "games"] celeste_yes) []).
  - reflexivity.
  - intros d Hd. by apply elem_of_nil in Hd.
Defined.

(** ** Identifiers and the two ways an id fails *)

Lemma new_of_valid id :
  ObjectId.isValid id = true → ∃ o, ObjectId.new id = Some o.
Proof.
  unfold ObjectId.isValid, ObjectId.new.
  destruct (bool_decide (String.length id = 12)); [eauto|].
  simpl. intros ->. eauto.
Qed.

Lemma get_game_found_or_not params req id o (st : list doc) :
  params !! "id" = Some id → ObjectId.new id = Some o →
  get_game params req st
  = (Ok (match List.find (has_id o) st with
         | None => not_found
         | Some d => respond 200 (Json (toResp (Some d)))
         end), st, [FindOne o]).
Proof.
  intros Hid Hnew. unfold get_game, try_catch. rewrite Hid. simpl.
  assert (ObjectId.isValid id = true) as ->.
  { revert Hnew. unfold ObjectId.isValid, ObjectId.new.
    destruct (bool_decide (String.length id = 12)); [done|]. simpl.
    by destruct (_ && _). }
  simpl. rewrite Hnew. unfold mbind, M_bind, Collection.findOne. simpl.
  by destruct (List.find (has_id o) st).
Qed.

Lemma delete_game_run params req id o (st : list doc) :
  params !! "id" = Some id → ObjectId.new id = Some o →
  delete_game params req st
  = (Ok (if existsb (has_id o) st then respond 204 Empty else not_found),
     Collection.remove_first o st, [DeleteOne o]).
Proof.
  intros Hid Hnew. unfold delete_game, try_catch. rewrite Hid. simpl.
  assert (ObjectId.isValid id = true) as ->.
  { revert Hnew. unfold ObjectId.isValid, ObjectId.new.
    destruct (bool_decide (String.length id = 12)); [done|]. simpl.
    by destruct (_ && _). }
  simpl. rewrite Hnew. unfold mbind, M_bind, Collection.deleteOne. simpl.
  by destruct (existsb (has_id o) st).
Qed.

Lemma remove_first_fresh o (st : list doc) :
  (∀ d, d ∈ st → _id d ≠ o) → Collection.remove_first o st = st.
Proof.
  induction st as [|d st IH]; intros H; [done|]. simpl.
  unfold has_id at 1. rewrite bool_decide_false by (apply H; left).
  f_equal. apply IH. intros d' Hd'. apply H. by right.
Qed.

Lemma remove_first_subset o (st : list doc) d :
  d ∈ Collection.remove_first o st → d ∈ st.
Proof.
  induction st as [|a st IH]; [done|]. simpl.
  destruct (has_id o a).
  - by right.
  - rewrite !elem_of_cons. naive_solver.
Qed.

(** Identifiers are unique in the collection, so once the record with a
    given id is deleted no record has that id. *)
Lemma remove_first_gone o (st : list doc) :
  NoDup (_id <$> st) → ∀ d, d ∈ Collection.remove_first o st → _id d ≠ o.
Proof.
  induction st as [|a st IH]; simpl; intros Hnd d Hd.
  - by apply elem_of_nil in Hd.
  - apply NoDup_cons in Hnd as [Ha Hnd].
    unfold has_id in Hd at 1. case_bool_decide as Hao.
    + intros Hdo. apply Ha. rewrite Hao, <- Hdo.
      by apply list_elem_of_fmap_2.
    + apply elem_of_cons in Hd as [->|Hd]; [done|]. by apply IH.
Qed.

Lemma remove_first_NoDup o (st : list doc) :
  NoDup (_id <$> st) → NoDup (_id <$> Collection.remove_first o st).
Proof.
  induction st as [|a st IH]; simpl; [done|].
  intros [Ha Hnd]%NoDup_cons. destruct (has_id o a); [done|].
  simpl. apply NoDup_cons. split; [|by apply IH].
  intros (d & Hd & Hin)%list_elem_of_fmap. apply Ha. rewrite Hd.
  apply list_elem_of_fmap_2. by eapply remove_first_subset.
Qed.



(** ** The whitelist of [update] *)

Lemma whitelist_fold (payload : obj) (l : list string) (acc : obj) k :
  foldl (λ set k, match payload !! k with
                  | Some v => <[k := v]> set
                  | None => set
                  end) acc l !! k
  = if bool_decide (k ∈ l) then
      match payload !! k with Some v => Some v | None => acc !! k end
    else acc !! k.
Proof.
  revert acc. induction l as [|a l IH]; intros acc; cbn [foldl].
  - case_bool_decide as H; [by apply elem_of_nil in H|done].
  - rewrite IH. destruct (decide (k = a)) as [->|Hne].
    + rewrite (bool_decide_true (a ∈ a :: l)) by left.
      destruct (payload !! a) as [v|] eqn:E.
      * rewrite lookup_insert_eq. by destruct (bool_decide (a ∈ l)).
      * by destruct (bool_decide (a ∈ l)).
    + assert (bool_decide (k ∈ a :: l) = bool_decide (k ∈ l)) as ->.
      { apply bool_decide_ext. rewrite elem_of_cons. naive_solver. }
      destruct (payload !! a); [by rewrite lookup_insert_ne|done].
Qed.

(** [set] holds exactly the whitelisted keys the payload defines. *)
Lemma lookup_whitelist (payload : obj) k :
  whitelist payload !! k
  = if bool_decide (k ∈ allowed) then payload !! k else None.
Proof.
  unfold whitelist. rewrite whitelist_fold, lookup_empty.
  by destruct (bool_decide (k ∈ allowed)), (payload !! k).
Qed.

Lemma whitelist_ext (p q : obj) :
  (∀ k, k ∈ allowed → p !! k = q !! k) → whitelist p = whitelist q.
Proof.
  intros H. apply map_eq. intros k. rewrite !lookup_whitelist.
  case_bool_decide; [by apply H|done].
Qed.

Lemma whitelist_size_0 (payload : obj) :
  size (whitelist payload) = 0 ↔ ∀ k, k ∈ allowed → payload !! k = None.
Proof.
  rewrite map_size_empty_iff, map_empty. split.
  - intros H k Hk. specialize (H k). rewrite lookup_whitelist in H.
    by rewrite bool_decide_true in H.
  - intros H k. rewrite lookup_whitelist. case_bool_decide; [by apply H|done].
Qed.

Lemma put_game_run year params req id (st : list doc) :
  params !! "id" = Some id → ObjectId.isValid id = true →
  validateGame year (body req) true = [] →
  ∃ o, ObjectId.new id = Some o ∧
  put_game year params req st
  = if bool_decide (size (whitelist (body req)) = 0) then (Ok no_fields, st, [])
    else (Ok (match List.find (has_id o) st with
              | None => not_found
              | Some d => respond 200 (Json (toResp (Some (Collection.apply_set (update_set req) d))))
              end),
          Collection.update_first o (update_set req) st,
          [FindOneAndUpdate o (update_set req)]).
Proof.
  intros Hid Hvalid Hv. destruct (new_of_valid id Hvalid) as [o Ho].
  exists o. split; [done|].
  unfold put_game, try_catch. rewrite Hid. simpl. rewrite Hvalid, Hv. simpl.
  destruct (bool_decide (size (whitelist (body req)) = 0)); [done|].
  rewrite Ho. unfold mbind, M_bind, Collection.findOneAndUpdate. simpl.
  fold (update_set req).
  by destruct (List.find (has_id o) st).
Qed.

Lemma update_first_other o (set : obj) (st : list doc) k :
  set !! k = None →
  (λ d, fields d !! k) <$> Collection.update_first o set st
  = (λ d, fields d !! k) <$> st.
Proof.
  intros Hk. induction st as [|d st IH]; [done|].
  cbn [Collection.update_first].
  destruct (has_id o d); rewrite !fmap_cons; f_equal; [|done].
  cbn [Collection.apply_set fields].
  rewrite lookup_union, Hk. by destruct (fields d !! k).
Qed.

(** C5. For a well-formed id and a payload that passes update-mode
    validation, [update] is answered [400 Aucun champ à mettre à jour]
    exactly when the payload defines none of the whitelisted keys, and
    then nothing is written. Keys outside the whitelist are dropped: the
    outcome is the same for any payload that agrees on the whitelisted
    keys, and no stored record changes at a key that is neither
    whitelisted nor [date_modification]. In particular the empty payload
    is refused. *)
Theorem update_whitelist year params req id (st : list doc) :
  params !! "id" = Some id → ObjectId.isValid id = true →
  validateGame year (body req) true = [] →
  ((put_game year params req st).1.1 = Ok no_fields
   ↔ ∀ k, k ∈ allowed → body req !! k = None)
  ∧ ((∀ k, k ∈ allowed → body req !! k = None) →
     put_game year params req st = (Ok no_fields, st, []))
  ∧ (∀ req', clock req' = clock req →
       (∀ k, k ∈ allowed → body req' !! k = body req !! k) →
       put_game year params req' st = put_game year params req st)
  ∧ (∀ k, k ∉ allowed → k ≠ "date_modification" →
       (λ d, fields d !! k) <$> (put_game year params req st).1.2
       = (λ d, fields d !! k) <$> st)
  ∧ (body req = ∅ → put_game year params req st = (Ok no_fields, st, [])).
Proof.
  intros Hid Hvalid Hv.
  destruct (put_game_run year params req id st Hid Hvalid Hv) as (o & Ho & Hrun).
  assert ((∀ k, k ∈ allowed → body req !! k = None) →
          put_game year params req st = (Ok no_fields, st, [])) as Hnone.
  { intros H. rewrite Hrun. by rewrite bool_decide_true by by apply whitelist_size_0. }
  split; [|split; [done|split; [|split]]].
  - split; [|intros H; by rewrite Hnone].
    rewrite Hrun. case_bool_decide as Hsz.
    + intros _. by apply whitelist_size_0.
    + simpl. destruct (List.find (has_id o) st); intros [=].
  - intros req' Hclock Hagree.
    assert (validateGame year (body req') true = []) as Hv'.
    { rewrite <- Hv. apply validate_ext. intros key s Hin. apply Hagree.
      by eapply schema_keys_allowed. }
    destruct (put_game_run year params req' id st Hid Hvalid Hv')
      as (o' & Ho' & Hrun').
    assert (o' = o) as -> by congruence.
    rewrite Hrun, Hrun'. unfold update_set.
    by rewrite Hclock, (whitelist_ext (body req') (body req)).
  - intros k Hk Hdm. rewrite Hrun. case_bool_decide; [done|]. simpl.
    apply update_first_other. unfold update_set.
    rewrite lookup_insert_ne by done. rewrite lookup_whitelist.
    by rewrite bool_decide_false.
  - intros Hempty. apply Hnone. intros k _. by rewrite Hempty, lookup_empty.
Qed.

Lemma update_whitelist_witness :
  put_game 2026 {[ "id" := "0123456789abcdef01234567" ]}
    (mk_req PUT ["api"; "games"; "0123456789abcdef01234567"] ∅)
    [stored_celeste]
  = (Ok no_fields, [stored_celeste], []).
Proof.
  apply (update_whitelist 2026 {[ "id" := "0123456789abcdef01234567" ]}
           (mk_req PUT ["api"; "games"; "0123456789abcdef01234567"] ∅)
           "0123456789abcdef01234567" [stored_celeste]);
    reflexivity.
Defined.

(** ** Accumulation over fields and checks *)




(** ** Reachable collections *)

Lemma first_match_in rs req h :
  first_match rs req = Some h →
  ∃ r params, r ∈ rs ∧ h = route_handler r params req.
Proof.
  induction rs as [|r rs IH]; simpl; [done|].
  destruct (bool_decide (route_method r = method req)).
  - destruct (match_path (route_path r) (path req)) as [params|].
    + intros [= <-]. exists r, params. split; [left|done].
    + intros (r' & ps & Hin & ->)%IH. exists r', ps. split; [by right|done].
  - intros (r' & ps & Hin & ->)%IH. exists r', ps. split; [by right|done].
Qed.

(** A request is served by one of the eight handlers. *)
Lemma dispatch_cases year req h :
  dispatch year req = Some h →
  ∃ params,
    h = post_games year params req ∨ h = get_games params req
    ∨ h = get_game params req ∨ h = put_game year params req
    ∨ h = delete_game params req ∨ h = post_favorite params req
    ∨ h = get_stats params req ∨ h = get_export params req.
Proof.
  intros (r & params & Hin & ->)%first_match_in. exists params.
  unfold routes in Hin. rewrite !elem_of_cons, elem_of_nil in Hin.
  destruct Hin as [->|[->|[->|[->|[->|[->|[->|[->|[]]]]]]]]]; simpl; tauto.
Qed.

Lemma existsb_has_id_false o (st : list doc) :
  existsb (has_id o) st = false → ∀ d, d ∈ st → _id d ≠ o.
Proof.
  induction st as [|a st IH]; simpl; intros H d Hd.
  - by apply elem_of_nil in Hd.
  - apply orb_false_iff in H as [Ha H].
    apply elem_of_cons in Hd as [->|Hd]; [|by apply IH].
    unfold has_id in Ha. by apply bool_decide_eq_false in Ha.
Qed.

(** What each handler leaves in the collection. *)
Lemma post_games_store year params req (st : list doc) :
  (post_games year params req st).1.2 = st
  ∨ (post_games year params req st).1.2 = st ++ [inserted_doc req]
    ∧ validateGame year (body req) false = []
    ∧ ∀ d, d ∈ st → _id d ≠ generated req.
Proof.
  destruct (validateGame year (body req) false) as [|e l] eqn:Hv.
  - destruct (existsb (has_id (generated req)) st) eqn:Hex.
    + left. unfold post_games, try_catch. rewrite Hv. simpl.
      unfold mbind, M_bind, Collection.insertOne. by rewrite Hex.
    + right. pose proof (existsb_has_id_false _ _ Hex) as Hfresh.
      by rewrite post_games_accepts by done.
  - left. rewrite post_games_rejects; [done|]. by rewrite Hv.
Qed.

Lemma put_game_store year params req (st : list doc) :
  (put_game year params req st).1.2 = st
  ∨ ∃ o, (put_game year params req st).1.2
         = Collection.update_first o (update_set req) st
         ∧ validateGame year (body req) true = [].
Proof.
  destruct (params !! "id") as [id|] eqn:Hid;
    [|left; unfold put_game, try_catch; by rewrite Hid].
  destruct (ObjectId.isValid id) eqn:Hvalid.
  - destruct (validateGame year (body req) true) as [|e l] eqn:Hv.
    + destruct (put_game_run year params req id st Hid Hvalid Hv)
        as (o & Ho & ->).
      case_bool_decide; [by left|]. right. by exists o.
    + left. rewrite (put_game_rejects year params req id); [done..|].
      by rewrite Hv.
  - left. unfold put_game, try_catch. rewrite Hid. simpl. by rewrite Hvalid.
Qed.

Lemma delete_game_store params req (st : list doc) :
  (delete_game params req st).1.2 = st
  ∨ ∃ o, (delete_game params req st).1.2 = Collection.remove_first o st.
Proof.
  destruct (params !! "id") as [id|] eqn:Hid;
    [|left; unfold delete_game, try_catch; by rewrite Hid].
  destruct (ObjectId.new id) as [o|] eqn:Hnew.
  - right. exists o. by rewrite (delete_game_run params req id o).
  - left. unfold delete_game, try_catch. rewrite Hid. simpl.
    destruct (ObjectId.isValid id); simpl; [|done]. by rewrite Hnew.
Qed.

Lemma post_favorite_store params req (st : list doc) :
  (post_favorite params req st).1.2 = st
  ∨ ∃ o b, (post_favorite params req st).1.2
           = Collection.update_first o
               (<["favorite" := VBool b]>
                (<["date_modification" := VDate (clock req)]> ∅)) st.
Proof.
  unfold post_favorite, try_catch.
  destruct (ObjectId.isValid _); simpl; [|by left].
  destruct (ObjectId.new _) as [o|]; simpl; [|by left].
  unfold mbind, M_bind, Collection.findOne, Collection.findOneAndUpdate.
  simpl. destruct (List.find (has_id o) st) as [g|]; simpl; [|by left].
  right. by exists o, (negb (truthy (fields g !! "favorite"))).
Qed.

Lemma get_game_store params req (st : list doc) :
  (get_game params req st).1.2 = st.
Proof.
  unfold get_game, try_catch.
  destruct (ObjectId.isValid _); simpl; [|done].
  destruct (ObjectId.new _) as [o|]; simpl; [|done].
  unfold mbind, M_bind, Collection.findOne. simpl.
  by destruct (List.find (has_id o) st).
Qed.

(** ** The invariant *)

Lemma store_ok_insert (st : list doc) d :
  store_ok st → (∀ d', d' ∈ st → _id d' ≠ _id d) → doc_ok d →
  store_ok (st ++ [d]).
Proof.
  intros [Hnd Hok] Hfresh Hd. split.
  - rewrite fmap_app. apply NoDup_app. split; [done|]. split.
    + intros o (d' & -> & Hin)%list_elem_of_fmap Ho.
      apply list_elem_of_singleton in Ho. by apply (Hfresh d').
    + apply NoDup_singleton.
  - apply Forall_app. split; [done|]. by apply Forall_singleton.
Qed.

Lemma store_ok_remove o (st : list doc) :
  store_ok st → store_ok (Collection.remove_first o st).
Proof.
  intros [Hnd Hok]. split; [by apply remove_first_NoDup|].
  rewrite Forall_forall in *. intros d Hd. apply Hok.
  by eapply remove_first_subset.
Qed.

Lemma field_is_apply_set (P : value → Prop) k (set : obj) d :
  field_is P k d → (∀ v, set !! k = Some v → P v) →
  field_is P k (Collection.apply_set set d).
Proof.
  intros (v & Hv & HP) Hset. unfold field_is. simpl.
  rewrite lookup_union. destruct (set !! k) as [w|] eqn:E.
  - exists w. split; [by destruct (fields d !! k)|]. by apply Hset.
  - exists v. by rewrite Hv.
Qed.

Lemma update_first_ids o (set : obj) (st : list doc) :
  _id <$> Collection.update_first o set st = _id <$> st.
Proof.
  induction st as [|d st IH]; [done|]. cbn [Collection.update_first].
  destruct (has_id o d); rewrite !fmap_cons; f_equal; done.
Qed.

Lemma store_ok_update o (set : obj) (st : list doc) :
  store_ok st →
  (∀ v, set !! "titre" = Some v → titre_value v) →
  (∀ v, set !! "termine" = Some v → termine_value v) →
  (∀ v, set !! "date_ajout" = Some v → date_value v) →
  store_ok (Collection.update_first o set st).
Proof.
  intros [Hnd Hok] Ht Hf Hd. split; [by rewrite update_first_ids|].
  clear Hnd. induction Hok as [|d st (H1 & H2 & H3) Hok IH]; simpl; [done|].
  destruct (has_id o d); constructor; try done.
  repeat split; by apply field_is_apply_set.
Qed.

Lemma schema_titre year :
  ("titre", {| s_type := SString; s_required := true; s_min := None;
               s_max := None; s_minItems := None; s_minLength := Some 1 |})
  ∈ gameSchema year.
Proof. left. Qed.

Lemma schema_termine year : ("termine", mk_rule SBoolean false) ∈ gameSchema year.
Proof. unfold gameSchema. do 7 right. left. Qed.

(** A record enters the collection with a [titre] that is a string, not
    empty once trimmed. *)
Lemma inserted_doc_trimmed year req :
  validateGame year (body req) false = [] → titre_trimmed (inserted_doc req).
Proof.
  intros Hv. pose proof (validate_nil _ _ _ _ _ Hv (schema_titre year)) as Ht.
  unfold titre_trimmed, inserted_doc, new_doc. cbn [fields].
  change (list_to_map _ !! "titre") with (Some (default VNull (body req !! "titre"))).
  unfold check_field in Ht. simpl in Ht.
  destruct (body req !! "titre") as [[| | |s|l| |]|]; try done.
  - simpl in *. case_bool_decide as Htrim; [done|]. by exists s.
  - simpl in Ht. by case_bool_decide.
Qed.

Lemma titre_trimmed_value d : titre_trimmed d → field_is titre_value "titre" d.
Proof.
  intros (s & Hs & Htrim). exists (VStr s). split; [done|]. right.
  exists s. split; [done|]. by intros ->.
Qed.

Lemma inserted_doc_ok year req :
  validateGame year (body req) false = [] → doc_ok (inserted_doc req).
Proof.
  intros Hv. split; [|split].
  - apply titre_trimmed_value. by eapply inserted_doc_trimmed.
  - eexists. split; [reflexivity|]. right. eauto.
  - eexists. split; [reflexivity|]. by eexists.
Qed.

(** What an update that passed validation may write into [titre] and
    [termine]; it never writes [date_ajout]. *)
Lemma update_set_titre year req v :
  validateGame year (body req) true = [] →
  update_set req !! "titre" = Some v → titre_value v.
Proof.
  intros Hv. pose proof (validate_nil _ _ _ _ _ Hv (schema_titre year)) as Ht.
  unfold update_set. rewrite lookup_insert_ne, lookup_whitelist by done.
  rewrite bool_decide_true by (unfold allowed; set_solver).
  intros Hp. rewrite Hp in Ht. unfold check_field in Ht. simpl in Ht.
  destruct v as [| | |s| | |]; try done; [by left|].
  right. exists s. split; [done|]. intros ->. done.
Qed.

Lemma update_set_termine year req v :
  validateGame year (body req) true = [] →
  update_set req !! "termine" = Some v → termine_value v.
Proof.
  intros Hv. pose proof (validate_nil _ _ _ _ _ Hv (schema_termine year)) as Ht.
  unfold update_set. rewrite lookup_insert_ne, lookup_whitelist by done.
  rewrite bool_decide_true by (unfold allowed; set_solver).
  intros Hp. rewrite Hp in Ht. unfold check_field in Ht. simpl in Ht.
  destruct v as [|b| | | | |]; try done; [by left|].
  right. by exists b.
Qed.

Lemma update_set_date_ajout req : update_set req !! "date_ajout" = None.
Proof.
  unfold update_set. rewrite lookup_insert_ne, lookup_whitelist by done.
  reflexivity.
Qed.

(** Every collection the server can hold has unique identifiers, and in
    each of its records [titre] is [null] or a non-empty string,
    [termine] is [null] or a boolean and [date_ajout] is a date. *)
Lemma reachable_ok year (st : list doc) : reachable year st → store_ok st.
Proof.
  induction 1 as [|st req h Hreach IH Hd].
  { split; [apply NoDup_nil_2 | apply Forall_nil_2]. }
  apply dispatch_cases in Hd as
    [params [->|[->|[->|[->|[->|[->|[->| ->]]]]]]]].
  - destruct (post_games_store year params req st) as [->|(-> & Hv & Hfresh)];
      [done|].
    apply store_ok_insert; [done..|]. by eapply inserted_doc_ok.
  - done.
  - by rewrite get_game_store.
  - destruct (put_game_store year params req st) as [->|(o & -> & Hv)];
      [done|].
    apply store_ok_update; [done|..].
    + intros v. by eapply update_set_titre.
    + intros v. by eapply update_set_termine.
    + intros v. by rewrite update_set_date_ajout.
  - destruct (delete_game_store params req st) as [->|(o & ->)]; [done|].
    by apply store_ok_remove.
  - destruct (post_favorite_store params req st) as [->|(o & b & ->)]; [done|].
    apply store_ok_update; [done|..]; intros v;
      by rewrite !lookup_insert_ne, lookup_empty by done.
  - done.
  - done.
Qed.

Lemma reachable_celeste : reachable 2026 [stored_celeste].
Proof.
  exact (reachable_step 2026 [] (mk_req POST ["api"; "games"] celeste)
           (post_games 2026 ∅ (mk_req POST ["api"; "games"] celeste))
           (reachable_empty 2026) eq_refl).
Qed.

Lemma reachable_after_update (payload : obj) :
  reachable 2026 (after_update payload).
Proof.
  exact (reachable_step 2026 [stored_celeste]
           (mk_req PUT ["api"; "games"; "0123456789abcdef01234567"] payload)
           _ reachable_celeste eq_refl).
Qed.

(** C3, as the claim states it, on two collections the server reaches by
    one [create] and one successful [update]: after
    [update(id, {titre: null})] the record's [titre] is [null], and after
    [update(id, {titre: "  "})] it is a string of two spaces, which is
    empty once trimmed. *)
Lemma update_can_blank_titre :
  reachable 2026 (after_update {[ "titre" := VNull ]})
  ∧ (λ d, fields d !! "titre") <$> after_update {[ "titre" := VNull ]}
    = [Some VNull]
  ∧ ¬ Forall titre_trimmed (after_update {[ "titre" := VNull ]})
  ∧ reachable 2026 (after_update {[ "titre" := VStr "  " ]})
  ∧ (λ d, fields d !! "titre") <$> after_update {[ "titre" := VStr "  " ]}
    = [Some (VStr "  ")]
  ∧ ¬ Forall titre_trimmed (after_update {[ "titre" := VStr "  " ]}).
Proof.
  split; [apply reachable_after_update|]. split; [reflexivity|].
  split.
  { intros H.
    assert (Forall (λ o, ∃ s, o = Some (VStr s) ∧ JsString.trim s ≠ [])
              ((λ d, fields d !! "titre") <$> after_update {[ "titre" := VNull ]}))
      as H' by by apply Forall_fmap.
    change (_ <$> after_update _) with [Some VNull] in H'.
    apply Forall_cons in H' as [(s & Hs & _) _]. discriminate. }
  split; [apply reachable_after_update|]. split; [reflexivity|].
  intros H.
  assert (Forall (λ o, ∃ s, o = Some (VStr s) ∧ JsString.trim s ≠ [])
            ((λ d, fields d !! "titre") <$> after_update {[ "titre" := VStr "  " ]}))
    as H' by by apply Forall_fmap.
  change (_ <$> after_update _) with [Some (VStr "  ")] in H'.
  apply Forall_cons in H' as [(s & [= <-] & Hs) _]. by apply Hs.
Qed.

(** C3, amended. In every collection the server can hold, the [titre] of
    each record is [null] or a string of at least one character (which
    may be all whitespace): a successful update can set it to [null] or to
    a whitespace-only string, but not to the empty string or to a value
    that is not a string. A record that [create] adds has a [titre] that
    is a string, not empty once trimmed. *)
Theorem titre_invariant year (st : list doc) :
  reachable year st →
  Forall (field_is titre_value "titre") st
  ∧ ∀ params req r,
      (post_games year params req st).1.1 = Ok r → status r = 201 →
      ∃ d, (post_games year params req st).1.2 = st ++ [d] ∧ titre_trimmed d.
Proof.
  intros Hreach. split.
  - apply reachable_ok in Hreach as [_ Hok].
    eapply Forall_impl; [exact Hok|]. by intros d [H _].
  - intros params req r.
    destruct (validateGame year (body req) false) as [|e l] eqn:Hv.
    + destruct (existsb (has_id (generated req)) st) eqn:Hex.
      * unfold post_games, try_catch. rewrite Hv. simpl.
        unfold mbind, M_bind, Collection.insertOne. rewrite Hex. simpl.
        by intros [= <-].
      * pose proof (existsb_has_id_false _ _ Hex) as Hfresh.
        rewrite post_games_accepts by done. intros _ _.
        exists (inserted_doc req). split; [done|].
        by eapply inserted_doc_trimmed.
    + rewrite post_games_rejects by by rewrite Hv. simpl. by intros [= <-].
Qed.

Lemma titre_invariant_witness :
  Forall (field_is titre_value "titre") (after_update {[ "titre" := VNull ]}).
Proof.
  apply (titre_invariant 2026 (after_update {[ "titre" := VNull ]})).
  apply reachable_after_update.
Defined.

(** ** Listing *)

Lemma doc_matches_Forall (filter : obj) d :
  doc_matches filter d = true ↔
  map_Forall (λ k q, field_matches q (fields d !! k) = true) filter.
Proof.
  unfold doc_matches. rewrite map_Forall_to_list, forallb_forall, Forall_forall.
  split.
  - intros H [k q] Hin. apply list_elem_of_In, H in Hin. done.
  - intros H [k q] Hin. apply list_elem_of_In, H in Hin. done.
Qed.

Lemma doc_matches_list_filter q d : doc_matches (list_filter q) d = selected q d.
Proof.
  apply eq_true_iff_eq. rewrite doc_matches_Forall.
  pose proof (map_Forall_empty (M := gmap string)
                (λ k q, field_matches q (fields d !! k) = true)) as He.
  unfold list_filter, selected, text_filter, flag_filter, nonempty, set_if.
  destruct (q !! "genre") as [g|], (q !! "plateforme") as [pl|],
    (q !! "termine") as [t|], (q !! "favorite") as [f|];
    cbn [default]; repeat case_bool_decide; simplify_eq; cbn [negb andb];
    rewrite ?map_Forall_insert, ?andb_true_iff
      by (rewrite ?lookup_insert_ne by done; apply lookup_empty);
    intuition.
Qed.

#[local] Instance desc_by_total k : Total (desc_by k).
Proof.
  intros d1 d2. unfold desc_by, key_le.
  destruct (date_of d1 k), (date_of d2 k); auto. lia.
Qed.

#[local] Instance desc_by_trans k : Transitive (desc_by k).
Proof.
  intros d1 d2 d3. unfold desc_by, key_le.
  destruct (date_of d1 k), (date_of d2 k), (date_of d3 k); auto; try done. lia.
Qed.

Lemma desc_by_added_before d1 d2 :
  field_is date_value "date_ajout" d1 → field_is date_value "date_ajout" d2 →
  desc_by "date_ajout" d1 d2 → added_before d1 d2.
Proof.
  intros (v1 & H1 & t1 & ->) (v2 & H2 & t2 & ->).
  unfold desc_by, date_of. rewrite H1, H2. simpl. intros Hle.
  by exists t1, t2.
Qed.

Lemma StronglySorted_on {A} (R R' : A → A → Prop) (P : A → Prop) l :
  (∀ x y, P x → P y → R x y → R' x y) →
  Forall P l → StronglySorted R l → StronglySorted R' l.
Proof.
  intros HR HP Hs. induction Hs as [|x l Hs IH Hx]; [constructor|].
  apply Forall_cons in HP as [Px HP]. constructor; [by apply IH|].
  rewrite Forall_forall in *. intros y Hy. apply HR; auto.
Qed.

Lemma filter_elem (f : doc → bool) (st : list doc) d :
  d ∈ List.filter f st ↔ d ∈ st ∧ f d = true.
Proof. by rewrite !list_elem_of_In, filter_In. Qed.

Lemma list_filter_ignores k v (q : gmap string string) :
  k = "termine" ∨ k = "favorite" → v ≠ "true" → v ≠ "false" →
  list_filter (<[k := v]> q) = list_filter (delete k q).
Proof.
  intros Hk Ht Hf.
  assert (∀ k', k' ≠ k → <[k := v]> q !! k' = delete k q !! k') as Hne.
  { intros k' Hk'. by rewrite lookup_insert_ne, lookup_delete_ne. }
  destruct Hk as [-> | ->]; unfold list_filter;
    rewrite (Hne "genre"), (Hne "plateforme") by done;
    [rewrite (Hne "favorite") by done | rewrite (Hne "termine") by done];
    rewrite lookup_insert_eq, lookup_delete_eq;
    rewrite (bool_decide_false (Some v = Some "true")) by congruence;
    by rewrite (bool_decide_false (Some v = Some "false")) by congruence.
Qed.



(** ** The export handler, were it reached *)

(** The handler registered for [/api/games/export] does return every
    record, response-shaped and in the collection's order; what C1 misses
    is the route, not the handler. *)
Lemma get_export_all params req (st : list doc) :
  get_export params req st
  = (Ok {| status := 200;
           headers := [("Content-Disposition", "attachment; filename=games.json")];
           sent := JsonList ((λ d, toResp (Some d)) <$> st) |},
     st, [Find ∅]).
Proof.
  unfold get_export, try_catch, mbind, M_bind, Collection.find. simpl.
  assert (List.filter (doc_matches ∅) st = st) as ->; [|done].
  apply forallb_filter_id, forallb_forall. intros d _.
  unfold doc_matches. by rewrite map_to_list_empty.
Qed.

(** * Further properties of the handlers *)

(** ** What a served request does to the collection *)

Lemma update_first_fresh o (set : obj) (st : list doc) :
  List.find (has_id o) st = None → Collection.update_first o set st = st.
Proof.
  induction st as [|d st IH]; simpl; [done|].
  destruct (has_id o d); [done|]. intros H. by rewrite IH.
Qed.

Lemma update_first_elem o (set : obj) (st : list doc) d' :
  d' ∈ Collection.update_first o set st →
  ∃ d, d ∈ st ∧ (d' = d ∨ d' = Collection.apply_set set d).
Proof.
  induction st as [|a st IH]; simpl; [by intros ?%elem_of_nil|].
  destruct (has_id o a).
  - intros [->|H]%elem_of_cons.
    + exists a. split; [left|by right].
    + exists d'. split; [by right|by left].
  - intros [->|H]%elem_of_cons.
    + exists a. split; [left|by left].
    + destruct (IH H) as (d & Hd & Hor). exists d. split; [by right|done].
Qed.

Lemma find_update_first o (set : obj) (st : list doc) :
  List.find (has_id o) (Collection.update_first o set st)
  = Collection.apply_set set <$> List.find (has_id o) st.
Proof.
  induction st as [|a st IH]; simpl; [done|].
  destruct (has_id o a) eqn:E; simpl.
  - unfold has_id in *. simpl. by rewrite E.
  - by rewrite E.
Qed.

Lemma find_update_first_ne o o' (set : obj) (st : list doc) :
  o' ≠ o →
  List.find (has_id o') (Collection.update_first o set st)
  = List.find (has_id o') st.
Proof.
  intros Hne. induction st as [|a st IH]; simpl; [done|].
  destruct (has_id o a) eqn:E; simpl.
  - unfold has_id in *. simpl. apply bool_decide_eq_true in E.
    by rewrite !bool_decide_false by congruence.
  - destruct (has_id o' a); [done|]. apply IH.
Qed.

Lemma post_favorite_run params req id o (st : list doc) :
  params !! "id" = Some id → ObjectId.new id = Some o →
  post_favorite params req st
  = match List.find (has_id o) st with
    | None => (Ok not_found, st, [FindOne o])
    | Some g =>
      let set := favorite_set (fields g !! "favorite") (clock req) in
      (Ok (respond 200 (Json (toResp (Some (Collection.apply_set set g))))),
       Collection.update_first o set st,
       [FindOne o; FindOneAndUpdate o set])
    end.
Proof.
  intros Hid Hnew. unfold post_favorite, try_catch. rewrite Hid. simpl.
  assert (ObjectId.isValid id = true) as ->.
  { revert Hnew. unfold ObjectId.isValid, ObjectId.new.
    destruct (bool_decide (String.length id = 12)); [done|]. simpl.
    by destruct (_ && _). }
  simpl. rewrite Hnew. unfold mbind, M_bind, Collection.findOne. simpl.
  destruct (List.find (has_id o) st) as [g|] eqn:Hg; [|done].
  simpl. unfold Collection.findOneAndUpdate.
  by rewrite Hg.
Qed.

(** The five things a served request can do to the collection. *)
Lemma dispatch_store year req h (st : list doc) :
  dispatch year req = Some h →
  (h st).1.2 = st
  ∨ ((h st).1.2 = st ++ [inserted_doc req]
     ∧ validateGame year (body req) false = []
     ∧ ∀ d, d ∈ st → _id d ≠ generated req)
  ∨ (∃ o, (h st).1.2 = Collection.update_first o (update_set req) st
          ∧ validateGame year (body req) true = [])
  ∨ (∃ o, (h st).1.2 = Collection.remove_first o st)
  ∨ (∃ o b, (h st).1.2
            = Collection.update_first o
                (<["favorite" := VBool b]>
                 (<["date_modification" := VDate (clock req)]> ∅)) st).
Proof.
  intros [params Hh]%dispatch_cases.
  destruct Hh as [->|[->|[->|[->|[->|[->|[->| ->]]]]]]].
  - destruct (post_games_store year params req st) as [->|H]; auto.
  - by left.
  - left. apply get_game_store.
  - destruct (put_game_store year params req st) as [->|H]; auto.
  - destruct (delete_game_store params req st) as [->|H]; auto.
  - destruct (post_favorite_store params req st) as [->|H]; auto 6.
  - by left.
  - by left.
Qed.

(** A property of single records that insertion establishes and the two
    kinds of [$set] preserve holds of every record of every collection the
    server can hold. *)
Lemma reachable_docs year (P : doc → Prop) :
  (∀ req, validateGame year (body req) false = [] → P (inserted_doc req)) →
  (∀ req d, validateGame year (body req) true = [] → P d →
            P (Collection.apply_set (update_set req) d)) →
  (∀ b t d, P d →
     P (Collection.apply_set
          (<["favorite" := VBool b]> (<["date_modification" := VDate t]> ∅)) d)) →
  ∀ st, reachable year st → Forall P st.
Proof.
  intros Hins Hupd Htog st. induction 1 as [|st req h Hreach IH Hd]; [constructor|].
  destruct (dispatch_store year req h st Hd)
    as [->|[(-> & Hv & _)|[(o & -> & Hv)|[(o & ->)|(o & b & ->)]]]].
  - done.
  - apply Forall_app. split; [done|]. apply Forall_singleton. by apply Hins.
  - rewrite Forall_forall in *. intros d' (d & Hin & [->| ->])%update_first_elem;
      [by apply IH|]. apply Hupd; [done|]. by apply IH.
  - rewrite Forall_forall in *. intros d Hin%remove_first_subset. by apply IH.
  - rewrite Forall_forall in *. intros d' (d & Hin & [->| ->])%update_first_elem;
      [by apply IH|]. apply Htog. by apply IH.
Qed.

(** ** More on the validator *)

Lemma validate_all_nil year (payload : obj) isUpdate :
  (∀ key s, (key, s) ∈ gameSchema year →
            check_field isUpdate key s (payload !! key) = []) →
  validateGame year payload isUpdate = [].
Proof.
  intros H. destruct (validateGame year payload isUpdate) as [|e l] eqn:E; [done|].
  assert (e ∈ validateGame year payload isUpdate) as He by (rewrite E; left).
  apply validate_elem in He as (key & s & Hin & He).
  rewrite (H key s Hin) in He. by apply elem_of_nil in He.
Qed.

Lemma check_field_create_update key s v :
  check_field false key s v = [] → check_field true key s v = [].
Proof.
  unfold check_field. simpl.
  by destruct (s_required s && is_missing v).
Qed.

(** A payload that [create] accepts is also accepted as an update: the
    update-mode checks are among the create-mode ones. *)
Theorem valid_create_valid_update year (payload : obj) :
  validateGame year payload false = [] → validateGame year payload true = [].
Proof.
  intros Hv. apply validate_all_nil. intros key s Hin.
  apply check_field_create_update. by apply (validate_nil year).
Qed.

Lemma valid_create_valid_update_witness : validateGame 2026 celeste true = [].
Proof. apply (valid_create_valid_update 2026 celeste). reflexivity. Defined.

(** The validator looks at the eight schema keys only: writing or
    removing any other key of the payload, [favorite] and the dates
    included, does not change the error list. *)
Theorem validate_ignores_other_keys year (payload : obj) isUpdate k v :
  k ∉ ["titre"; "genre"; "plateforme"; "editeur"; "developpeur";
       "annee_sortie"; "temps_jeu_heures"; "termine"] →
  validateGame year (<[k := v]> payload) isUpdate
  = validateGame year payload isUpdate
  ∧ validateGame year (delete k payload) isUpdate
    = validateGame year payload isUpdate.
Proof.
  intros Hk. split; apply validate_ext; intros key s Hin%schema_keys.
  - rewrite lookup_insert_ne; [done|]. by intros ->.
  - rewrite lookup_delete_ne; [done|]. by intros ->.
Qed.

Lemma validate_ignores_other_keys_witness :
  validateGame 2026 (<["note" := VNum 5]> celeste) false
  = validateGame 2026 celeste false
  ∧ validateGame 2026 (delete "note" celeste) false
    = validateGame 2026 celeste false.
Proof.
  apply (validate_ignores_other_keys 2026 celeste false "note" (VNum 5)).
  rewrite !not_elem_of_cons. repeat split; [discriminate..|apply not_elem_of_nil].
Defined.

(** ** The keys of stored documents *)

Lemma dom_whitelist (payload : obj) :
  dom (whitelist payload) ⊆ (list_to_set allowed : gset string).
Proof.
  intros k [v Hv]%elem_of_dom. rewrite lookup_whitelist in Hv.
  apply elem_of_list_to_set. by case_bool_decide.
Qed.

Lemma inserted_doc_shape req : has_shape (inserted_doc req).
Proof.
  unfold has_shape, inserted_doc, new_doc. cbn [fields].
  by rewrite dom_list_to_map_L.
Qed.

Lemma apply_set_shape (set : obj) d :
  dom set ⊆ (list_to_set doc_keys : gset string) →
  has_shape d → has_shape (Collection.apply_set set d).
Proof.
  unfold has_shape. cbn [Collection.apply_set fields].
  intros Hset Hd. rewrite dom_union_L, Hd. set_solver.
Qed.

(** Every record of every collection the server can hold has exactly the
    eleven keys [create] gives it: no update adds or removes a key, and no
    record has a field named [id] or [_id] beside its identifier. *)
Theorem stored_keys year (st : list doc) d :
  reachable year st → d ∈ st →
  (∀ k, is_Some (fields d !! k) ↔ k ∈ doc_keys)
  ∧ fields d !! "id" = None ∧ fields d !! "_id" = None.
Proof.
  intros Hreach Hd.
  assert (has_shape d) as Hshape.
  { revert d Hd. apply Forall_forall, (reachable_docs year); [| | |done].
    - intros req _. apply inserted_doc_shape.
    - intros req d _. apply apply_set_shape. unfold update_set.
      rewrite dom_insert_L. pose proof (dom_whitelist (body req)) as Hw.
      unfold allowed, doc_keys in *. set_solver.
    - intros b t d. apply apply_set_shape.
      rewrite !dom_insert_L, dom_empty_L. unfold doc_keys. set_solver. }
  assert (∀ k, is_Some (fields d !! k) ↔ k ∈ doc_keys) as Hkeys.
  { intros k. rewrite <- elem_of_dom, Hshape. apply elem_of_list_to_set. }
  split; [done|]. split; apply eq_None_not_Some; rewrite Hkeys;
    unfold doc_keys; rewrite !not_elem_of_cons;
    repeat split; try discriminate; apply not_elem_of_nil.
Qed.

Lemma stored_keys_witness :
  (∀ k, is_Some (fields stored_celeste !! k) ↔ k ∈ doc_keys)
  ∧ fields stored_celeste !! "id" = None
  ∧ fields stored_celeste !! "_id" = None.
Proof.
  apply (stored_keys 2026 [stored_celeste] stored_celeste).
  - exact (reachable_step 2026 [] (mk_req POST ["api"; "games"] celeste)
             (post_games 2026 ∅ (mk_req POST ["api"; "games"] celeste))
             (reachable_empty 2026) eq_refl).
  - left.
Defined.

(** ** The values of stored documents *)

Lemma check_field_nil_conforms isUpdate key s v :
  check_field isUpdate key s (Some v) = [] → conforms s v.
Proof.
  intros Hnil.
  assert (v = VNull ∨ v ≠ VNull) as [->|Hv] by (destruct v; auto; by right);
    [by left|].
  right. intros c Hc.
  destruct (violates true s (Some v) c) eqn:E; [exfalso|done].
  assert (message key s c ∈ check_field isUpdate key s (Some v)) as Hin.
  { apply check_field_elem. exists c. rewrite violates_mode by done.
    split; [done|]. split; [|done]. right.
    destruct (violates isUpdate s (Some v) Presence) eqn:P; [|done].
    unfold check_field in Hnil. rewrite is_missing_lacks in Hnil.
    change (negb isUpdate && s_required s && lacks (Some v))
      with (violates isUpdate s (Some v) Presence) in Hnil.
    by rewrite P in Hnil. }
  rewrite Hnil in Hin. by apply elem_of_nil in Hin.
Qed.

Lemma conforms_opt isUpdate key s (pv : option value) :
  check_field isUpdate key s pv = [] → conforms s (default VNull pv).
Proof.
  destruct pv as [v|]; [apply check_field_nil_conforms|by left].
Qed.

Lemma inserted_doc_conforms year req :
  validateGame year (body req) false = [] → doc_conforms year (inserted_doc req).
Proof.
  intros Hv key s Hin.
  pose proof (validate_nil _ _ _ _ _ Hv Hin) as Hf.
  apply conforms_opt in Hf.
  unfold gameSchema in Hin. rewrite !elem_of_cons, elem_of_nil in Hin.
  unfold field_is, inserted_doc, new_doc. cbn [fields].
  destruct Hin as [Hin|[Hin|[Hin|[Hin|[Hin|[Hin|[Hin|[Hin|[]]]]]]]]];
    injection Hin as -> ->; (eexists; split; [reflexivity|]); cbn [snd].
  - done.
  - done.
  - done.
  - unfold or_null. by destruct (truthy _); [|left].
  - unfold or_null. by destruct (truthy _); [|left].
  - destruct (body req !! "annee_sortie") as [[]|]; simpl in *; done || by left.
  - destruct (body req !! "temps_jeu_heures") as [[]|]; simpl in *; try done;
      right; intros c Hc; destruct c; done || reflexivity.
  - right. intros c Hc. by destruct c.
Qed.

Lemma apply_set_conforms year (set : obj) d :
  (∀ key s v, (key, s) ∈ gameSchema year → set !! key = Some v → conforms s v) →
  doc_conforms year d → doc_conforms year (Collection.apply_set set d).
Proof.
  intros Hset Hd key s Hin. apply field_is_apply_set; [by apply Hd|].
  intros v. by apply Hset.
Qed.

Lemma reachable_conforms year (st : list doc) :
  reachable year st → Forall (doc_conforms year) st.
Proof.
  apply (reachable_docs year).
  - apply inserted_doc_conforms.
  - intros req d Hv. apply apply_set_conforms. intros key s v Hin.
    pose proof (validate_nil _ _ _ _ _ Hv Hin) as Hf.
    pose proof (schema_keys_allowed _ _ _ Hin) as Hall.
    apply schema_keys in Hin.
    unfold update_set. rewrite lookup_insert_ne by (intros <-; set_solver).
    rewrite lookup_whitelist, bool_decide_true by done.
    intros Hp. rewrite Hp in Hf. by eapply check_field_nil_conforms.
  - intros b t d. apply apply_set_conforms. intros key s v Hin%schema_keys.
    rewrite !lookup_insert_ne, lookup_empty by (intros <-; set_solver). done.
Qed.

(** In every collection the server can hold, each schema field of each
    record is [null] or of its declared type and within its bounds:
    [genre] and [plateforme] are non-empty arrays, [editeur] and
    [developpeur] strings, [annee_sortie] a number neither below 1970 nor
    above the current year, [temps_jeu_heures] a number not below 0. *)
Theorem stored_values year (st : list doc) d :
  reachable year st → d ∈ st →
  field_is (λ v, v = VNull ∨ ∃ l, v = VArr l ∧ l ≠ []) "genre" d
  ∧ field_is (λ v, v = VNull ∨ ∃ l, v = VArr l ∧ l ≠ []) "plateforme" d
  ∧ field_is (λ v, v = VNull ∨ ∃ s, v = VStr s) "editeur" d
  ∧ field_is (λ v, v = VNull ∨ ∃ s, v = VStr s) "developpeur" d
  ∧ field_is (λ v, v = VNull
                   ∨ ∃ x, v = VNum x
                          ∧ PrimFloat.ltb x (number_of_Z 1970) = false
                          ∧ PrimFloat.ltb (number_of_Z year) x = false)
      "annee_sortie" d
  ∧ field_is (λ v, v = VNull
                   ∨ ∃ x, v = VNum x ∧ PrimFloat.ltb x (number_of_Z 0) = false)
      "temps_jeu_heures" d.
Proof.
  intros Hreach Hd.
  assert (doc_conforms year d) as Hc.
  { revert d Hd. apply Forall_forall. by apply reachable_conforms. }
  assert (∀ key s (Q : value → Prop),
            (key, s) ∈ gameSchema year →
            (∀ v, (∀ c, c ≠ Presence → violates true s (Some v) c = false) →
                  v ≠ VNull → Q v) →
            field_is (λ v, v = VNull ∨ Q v) key d) as Hfield.
  { intros key s Q Hin HQ. destruct (Hc key s Hin) as (v & Hv & Hconf).
    exists v. split; [done|].
    assert (v = VNull ∨ v ≠ VNull) as [->|Hne] by (destruct v; auto; by right);
      [by left|].
    right. apply HQ; [|done]. by destruct Hconf. }
  repeat split.
  - eapply Hfield; [do 1 right; left|]. intros v H Hnull.
    pose proof (H TypeCheck ltac:(done)) as Ht.
    pose proof (H MinItems ltac:(done)) as Hm.
    destruct v as [| | | |l| |]; try done. exists l. split; [done|].
    by destruct l.
  - eapply Hfield; [do 2 right; left|]. intros v H Hnull.
    pose proof (H TypeCheck ltac:(done)) as Ht.
    pose proof (H MinItems ltac:(done)) as Hm.
    destruct v as [| | | |l| |]; try done. exists l. split; [done|].
    by destruct l.
  - eapply Hfield; [do 3 right; left|]. intros v H Hnull.
    pose proof (H TypeCheck ltac:(done)) as Ht.
    destruct v as [| | |s| | |]; try done. by exists s.
  - eapply Hfield; [do 4 right; left|]. intros v H Hnull.
    pose proof (H TypeCheck ltac:(done)) as Ht.
    destruct v as [| | |s| | |]; try done. by exists s.
  - eapply Hfield; [do 5 right; left|]. intros v H Hnull.
    pose proof (H TypeCheck ltac:(done)) as Ht.
    pose proof (H Minimum ltac:(done)) as Hmin.
    pose proof (H Maximum ltac:(done)) as Hmax.
    destruct v as [| |x| | | |]; try done. by exists x.
  - eapply Hfield; [do 6 right; left|]. intros v H Hnull.
    pose proof (H TypeCheck ltac:(done)) as Ht.
    pose proof (H Minimum ltac:(done)) as Hmin.
    destruct v as [| |x| | | |]; try done. by exists x.
Qed.

Lemma stored_values_witness :
  field_is (λ v, v = VNull ∨ ∃ l, v = VArr l ∧ l ≠ []) "genre" stored_celeste.
Proof.
  apply (stored_values 2026 [stored_celeste] stored_celeste).
  - exact (reachable_step 2026 [] (mk_req POST ["api"; "games"] celeste)
             (post_games 2026 ∅ (mk_req POST ["api"; "games"] celeste))
             (reachable_empty 2026) eq_refl).
  - left.
Defined.

(** ** The routing table *)

Lemma dispatch_shape year req h :
  dispatch year req = Some h → served year req h.
Proof.
  unfold served, dispatch, routes.
  cbn [first_match route_method route_path route_handler].
  destruct (method req) eqn:Hm; cbn;
    destruct (path req) as [|a [|b [|c [|e [|f l]]]]] eqn:Hp;
    cbn [match_path]; repeat case_bool_decide; subst; cbn; try done;
    intros [= <-]; eauto 12.
  all: try (right; right; left; eexists; eauto 10).
  all: try (right; right; right; left; eexists; eauto 10).
Qed.

Lemma served_dispatch year req h :
  served year req h → dispatch year req = Some h.
Proof.
  unfold served, dispatch, routes.
  cbn [first_match route_method route_path route_handler].
  intros [(Hm & Hp & ->)|[(Hm & Hp & ->)|[(x & Hx & Hp & Hh)|
          [(x & Hx & Hm & Hp & ->)|(Hm & Hp & ->)]]]].
  - by rewrite Hm, Hp.
  - by rewrite Hm, Hp.
  - destruct Hh as [(Hm & ->)|[(Hm & ->)|(Hm & ->)]]; rewrite Hm, Hp;
      cbn [match_path]; by rewrite (bool_decide_false (x = "")) by done.
  - rewrite Hm, Hp. cbn [match_path].
    by rewrite (bool_decide_false (x = "")) by done.
  - by rewrite Hm, Hp.
Qed.


(** ** What no request does *)

Lemma apply_set_id (set : obj) d : _id (Collection.apply_set set d) = _id d.
Proof. done. Qed.

Lemma apply_set_other (set : obj) d k :
  set !! k = None → fields (Collection.apply_set set d) !! k = fields d !! k.
Proof.
  intros Hk. cbn [Collection.apply_set fields].
  rewrite lookup_union, Hk. by destruct (fields d !! k).
Qed.

(** No request changes the identifier or the [date_ajout] of a record:
    every record in the collection after a request is the one the request
    inserted, or has the [_id] and the [date_ajout] of a record that was
    there before. *)
Theorem id_and_date_ajout_kept year req h (st : list doc) d' :
  dispatch year req = Some h → d' ∈ (h st).1.2 →
  d' = inserted_doc req
  ∨ ∃ d, d ∈ st ∧ _id d' = _id d
         ∧ fields d' !! "date_ajout" = fields d !! "date_ajout".
Proof.
  intros Hd Hin.
  assert (∀ o (set : obj), set !! "date_ajout" = None →
            d' ∈ Collection.update_first o set st →
            ∃ d, d ∈ st ∧ _id d' = _id d
                 ∧ fields d' !! "date_ajout" = fields d !! "date_ajout") as Hupd.
  { intros o set Hset (d & Hdin & [->| ->])%update_first_elem; exists d;
      [done|]. split; [done|]. split; [done|]. by apply apply_set_other. }
  destruct (dispatch_store year req h st Hd)
    as [E|[(E & _)|[(o & E & _)|[(o & E)|(o & b & E)]]]]; rewrite E in Hin.
  - right. by exists d'.
  - apply elem_of_app in Hin as [Hin|Hin%list_elem_of_singleton]; [|by left].
    right. by exists d'.
  - right. apply (Hupd o (update_set req)); [|done]. apply update_set_date_ajout.
  - right. exists d'. split; [|done]. by eapply remove_first_subset.
  - right. eapply Hupd; [|exact Hin]. reflexivity.
Qed.

Lemma id_and_date_ajout_kept_witness :
  after_update {[ "titre" := VStr "Hades" ]}
  = [Collection.apply_set
       (update_set (mk_req PUT ["api"; "games"; "0123456789abcdef01234567"]
                           {[ "titre" := VStr "Hades" ]})) stored_celeste]
  ∧ ∃ d, d ∈ [stored_celeste]
         ∧ _id (Collection.apply_set
                  (update_set (mk_req PUT ["api"; "games"; "0123456789abcdef01234567"]
                                      {[ "titre" := VStr "Hades" ]})) stored_celeste)
           = _id d
         ∧ fields (Collection.apply_set
                     (update_set (mk_req PUT ["api"; "games"; "0123456789abcdef01234567"]
                                         {[ "titre" := VStr "Hades" ]})) stored_celeste)
             !! "date_ajout"
           = fields d !! "date_ajout".
Proof.
  split; [reflexivity|].
  destruct (id_and_date_ajout_kept 2026
              (mk_req PUT ["api"; "games"; "0123456789abcdef01234567"]
                      {[ "titre" := VStr "Hades" ]})
              (put_game 2026 {[ "id" := "0123456789abcdef01234567" ]}
                 (mk_req PUT ["api"; "games"; "0123456789abcdef01234567"]
                         {[ "titre" := VStr "Hades" ]}))
              [stored_celeste]
              (Collection.apply_set
                 (update_set (mk_req PUT ["api"; "games"; "0123456789abcdef01234567"]
                                     {[ "titre" := VStr "Hades" ]})) stored_celeste))
    as [Hnew|Hold]; [reflexivity | left | discriminate Hnew | exact Hold].
Defined.

(** *** Failures and reads leave the collection alone *)

Lemma post_games_failure year params req (st : list doc) :
  400 ≤ status_of (post_games year params req st).1.1 →
  (post_games year params req st).1.2 = st.
Proof.
  destruct (validateGame year (body req) false) as [|e l] eqn:Hv.
  - destruct (existsb (has_id (generated req)) st) eqn:Hex.
    + intros _. unfold post_games, try_catch. rewrite Hv. simpl.
      unfold mbind, M_bind, Collection.insertOne. by rewrite Hex.
    + pose proof (existsb_has_id_false _ _ Hex) as Hfresh.
      rewrite post_games_accepts by done. simpl. lia.
  - intros _. rewrite post_games_rejects; [done|]. by rewrite Hv.
Qed.

Lemma put_game_failure year params req (st : list doc) :
  400 ≤ status_of (put_game year params req st).1.1 →
  (put_game year params req st).1.2 = st.
Proof.
  destruct (params !! "id") as [id|] eqn:Hid;
    [|intros _; unfold put_game, try_catch; by rewrite Hid].
  destruct (ObjectId.isValid id) eqn:Hvalid.
  - destruct (validateGame year (body req) true) as [|e l] eqn:Hv.
    + destruct (put_game_run year params req id st Hid Hvalid Hv)
        as (o & Ho & ->).
      case_bool_decide; [done|]. simpl.
      destruct (List.find (has_id o) st) eqn:Hf; simpl; [lia|].
      intros _. by apply update_first_fresh.
    + intros _. rewrite (put_game_rejects year params req id); [done..|].
      by rewrite Hv.
  - intros _. unfold put_game, try_catch. rewrite Hid. simpl. by rewrite Hvalid.
Qed.

Lemma delete_game_failure params req (st : list doc) :
  400 ≤ status_of (delete_game params req st).1.1 →
  (delete_game params req st).1.2 = st.
Proof.
  destruct (params !! "id") as [id|] eqn:Hid;
    [|intros _; unfold delete_game, try_catch; by rewrite Hid].
  destruct (ObjectId.new id) as [o|] eqn:Hnew.
  - rewrite (delete_game_run params req id o) by done. simpl.
    destruct (existsb (has_id o) st) eqn:Hex; simpl; [lia|].
    intros _. apply remove_first_fresh. by apply existsb_has_id_false.
  - intros _. unfold delete_game, try_catch. rewrite Hid. simpl.
    destruct (ObjectId.isValid id); simpl; [|done]. by rewrite Hnew.
Qed.

Lemma post_favorite_failure params req (st : list doc) :
  400 ≤ status_of (post_favorite params req st).1.1 →
  (post_favorite params req st).1.2 = st.
Proof.
  destruct (params !! "id") as [id|] eqn:Hid;
    [|intros _; unfold post_favorite, try_catch; by rewrite Hid].
  destruct (ObjectId.new id) as [o|] eqn:Hnew.
  - rewrite (post_favorite_run params req id o) by done.
    destruct (List.find (has_id o) st); simpl; [lia|done].
  - intros _. unfold post_favorite, try_catch. rewrite Hid. simpl.
    destruct (ObjectId.isValid id); simpl; [|done]. by rewrite Hnew.
Qed.



(** ** Creating, reading, updating and deleting one record *)

Lemma valid_of_new id o : ObjectId.new id = Some o → ObjectId.isValid id = true.
Proof.
  unfold ObjectId.isValid, ObjectId.new.
  destruct (bool_decide (String.length id = 12)); [done|]. simpl.
  by destruct (_ && _).
Qed.

(** A record that [create] returned is what [getById] returns for the id
    in that reply, as long as the generated identifier is new to the
    collection and is one the id parser maps to itself. *)
Theorem create_then_getById year params req params' req' (st : list doc) :
  validateGame year (body req) false = [] →
  (∀ d, d ∈ st → _id d ≠ generated req) →
  ObjectId.new (ObjectId.toString (generated req)) = Some (generated req) →
  params' !! "id" = Some (ObjectId.toString (generated req)) →
  ∃ r st',
    (post_games year params req st).1 = (Ok (respond 201 (Json (Some r))), st')
    ∧ r !! "id" = Some (VStr (ObjectId.toString (generated req)))
    ∧ get_game params' req' st'
      = (Ok (respond 200 (Json (Some r))), st', [FindOne (generated req)]).
Proof.
  intros Hv Hfresh Hnew Hid.
  eexists _, (st ++ [inserted_doc req]). split; [|split].
  - rewrite post_games_accepts by done. reflexivity.
  - reflexivity.
  - rewrite (get_game_found_or_not params' req' _ (generated req)) by done.
    by rewrite (find_app_fresh _ st (inserted_doc req)).
Qed.

Lemma create_then_getById_witness :
  ∃ r st',
    (post_games 2026 ∅ (mk_req POST ["api"; "games"] celeste) []).1
    = (Ok (respond 201 (Json (Some r))), st')
    ∧ r !! "id" = Some (VStr "0123456789abcdef01234567")
    ∧ get_game {[ "id" := "0123456789abcdef01234567" ]}
        (mk_req GET ["api"; "games"; "0123456789abcdef01234567"] ∅) st'
      = (Ok (respond 200 (Json (Some r))), st', [FindOne oid1]).
Proof.
  apply (create_then_getById 2026 ∅ (mk_req POST ["api"; "games"] celeste)
           {[ "id" := "0123456789abcdef01234567" ]}
           (mk_req GET ["api"; "games"; "0123456789abcdef01234567"] ∅) []).
  - reflexivity.
  - intros d Hd. by apply elem_of_nil in Hd.
  - reflexivity.
  - reflexivity.
Defined.

Lemma update_first_length o (set : obj) (st : list doc) :
  length (Collection.update_first o set st) = length st.
Proof.
  induction st as [|a st IH]; simpl; [done|].
  destruct (has_id o a); simpl; by rewrite ?IH.
Qed.

Lemma find_has_id o (st : list doc) d :
  List.find (has_id o) st = Some d → d ∈ st ∧ _id d = o.
Proof.
  intros [Hin Hid]%find_some. split; [by apply list_elem_of_In|].
  unfold has_id in Hid. by apply bool_decide_eq_true in Hid.
Qed.

(** A successful [update]: the reply is the stored record after the
    update; each whitelisted key the payload defines now holds the
    payload's value, [date_modification] holds the time of the request,
    every other field and the identifier are what they were; every other
    record is untouched; and [getById] then returns the record of the
    reply. *)
Theorem update_effect year params req req' id o (st : list doc) d :
  params !! "id" = Some id → ObjectId.new id = Some o →
  validateGame year (body req) true = [] →
  (∃ k, k ∈ allowed ∧ is_Some (body req !! k)) →
  List.find (has_id o) st = Some d →
  ∃ d' st',
    (put_game year params req st).1
    = (Ok (respond 200 (Json (toResp (Some d')))), st')
    ∧ List.find (has_id o) st' = Some d'
    ∧ _id d' = _id d
    ∧ (∀ k v, k ∈ allowed → body req !! k = Some v → fields d' !! k = Some v)
    ∧ fields d' !! "date_modification" = Some (VDate (clock req))
    ∧ (∀ k, k ∉ allowed ∨ body req !! k = None → k ≠ "date_modification" →
            fields d' !! k = fields d !! k)
    ∧ (∀ o', o' ≠ o → List.find (has_id o') st' = List.find (has_id o') st)
    ∧ length st' = length st
    ∧ get_game params req' st'
      = (Ok (respond 200 (Json (toResp (Some d')))), st', [FindOne o]).
Proof.
  intros Hid Hnew Hv (k0 & Hk0 & Hsome) Hfind.
  pose proof (valid_of_new _ _ Hnew) as Hvalid.
  destruct (put_game_run year params req id st Hid Hvalid Hv) as (o1 & Ho1 & Hrun).
  assert (o1 = o) as -> by congruence.
  rewrite bool_decide_false in Hrun.
  2:{ rewrite whitelist_size_0. intros Hnone. rewrite (Hnone k0 Hk0) in Hsome.
      by destruct Hsome. }
  rewrite Hfind in Hrun.
  exists (Collection.apply_set (update_set req) d),
         (Collection.update_first o (update_set req) st).
  assert (List.find (has_id o) (Collection.update_first o (update_set req) st)
          = Some (Collection.apply_set (update_set req) d)) as Hfind'.
  { by rewrite find_update_first, Hfind. }
  split; [by rewrite Hrun|]. split; [done|]. split; [done|].
  split; [|split; [|split; [|split; [|split]]]].
  - intros k v Hk Hkv. cbn [Collection.apply_set fields].
    apply lookup_union_Some_l. unfold update_set.
    rewrite lookup_insert_ne by (intros <-; unfold allowed in Hk; set_solver).
    by rewrite lookup_whitelist, bool_decide_true.
  - cbn [Collection.apply_set fields]. apply lookup_union_Some_l.
    unfold update_set. by rewrite lookup_insert_eq.
  - intros k Hk Hdm. apply apply_set_other. unfold update_set.
    rewrite lookup_insert_ne by done. rewrite lookup_whitelist.
    case_bool_decide; [|done]. by destruct Hk.
  - intros o' Hne. by apply find_update_first_ne.
  - apply update_first_length.
  - rewrite (get_game_found_or_not params req' id o) by done.
    by rewrite Hfind'.
Qed.

Lemma update_effect_witness :
  ∃ d' st',
    (put_game 2026 {[ "id" := "0123456789abcdef01234567" ]}
       (mk_req PUT ["api"; "games"; "0123456789abcdef01234567"]
               {[ "titre" := VStr "Hades" ]}) [stored_celeste]).1
    = (Ok (respond 200 (Json (toResp (Some d')))), st')
    ∧ List.find (has_id oid1) st' = Some d'
    ∧ fields d' !! "titre" = Some (VStr "Hades")
    ∧ fields d' !! "genre" = fields stored_celeste !! "genre".
Proof.
  destruct (update_effect 2026 {[ "id" := "0123456789abcdef01234567" ]}
              (mk_req PUT ["api"; "games"; "0123456789abcdef01234567"]
                      {[ "titre" := VStr "Hades" ]})
              (mk_req GET ["api"; "games"; "0123456789abcdef01234567"] ∅)
              "0123456789abcdef01234567" oid1 [stored_celeste] stored_celeste)
    as (d' & st' & Hrun & Hfind & _ & Hset & _ & Hkeep & _).
  - reflexivity.
  - reflexivity.
  - reflexivity.
  - exists "titre". split; [left|]. by eexists.
  - reflexivity.
  - exists d', st'. split; [done|]. split; [done|]. split.
    + apply Hset; [left|reflexivity].
    + apply Hkeep; [by right|discriminate].
Defined.

(** An [update] with a valid payload that defines a whitelisted key, for
    a well-formed id that no record has, is answered [404 non trouvé]
    after one [findOneAndUpdate] call that changes nothing. *)
Theorem update_absent year params req id o (st : list doc) :
  params !! "id" = Some id → ObjectId.new id = Some o →
  validateGame year (body req) true = [] →
  (∃ k, k ∈ allowed ∧ is_Some (body req !! k)) →
  (∀ d, d ∈ st → _id d ≠ o) →
  put_game year params req st
  = (Ok not_found, st, [FindOneAndUpdate o (update_set req)]).
Proof.
  intros Hid Hnew Hv (k0 & Hk0 & Hsome) Hfresh.
  pose proof (valid_of_new _ _ Hnew) as Hvalid.
  destruct (put_game_run year params req id st Hid Hvalid Hv) as (o1 & Ho1 & ->).
  assert (o1 = o) as -> by congruence.
  rewrite bool_decide_false.
  2:{ rewrite whitelist_size_0. intros Hnone. rewrite (Hnone k0 Hk0) in Hsome.
      by destruct Hsome. }
  rewrite find_fresh by done. by rewrite update_first_fresh by by apply find_fresh.
Qed.

Lemma update_absent_witness :
  put_game 2026 {[ "id" := "0123456789abcdef01234567" ]}
    (mk_req PUT ["api"; "games"; "0123456789abcdef01234567"]
            {[ "termine" := VBool true ]}) []
  = (Ok not_found, [],
     [FindOneAndUpdate oid1
        (update_set (mk_req PUT ["api"; "games"; "0123456789abcdef01234567"]
                            {[ "termine" := VBool true ]}))]).
Proof.
  apply (update_absent 2026 {[ "id" := "0123456789abcdef01234567" ]}
           (mk_req PUT ["api"; "games"; "0123456789abcdef01234567"]
                   {[ "termine" := VBool true ]})
           "0123456789abcdef01234567" oid1 []).
  - reflexivity.
  - reflexivity.
  - reflexivity.
  - exists "termine". split; [unfold allowed; do 7 right; left|]. by eexists.
  - intros d Hd. by apply elem_of_nil in Hd.
Defined.

Lemma remove_first_filter o (st : list doc) :
  NoDup (_id <$> st) →
  Collection.remove_first o st = List.filter (λ d, negb (has_id o d)) st.
Proof.
  induction st as [|a st IH]; simpl; [done|].
  intros [Ha Hnd]%NoDup_cons. destruct (has_id o a) eqn:E; simpl.
  - symmetry. apply forallb_filter_id, forallb_forall.
    intros d Hd%list_elem_of_In. apply negb_true_iff.
    unfold has_id in *. apply bool_decide_eq_true in E.
    apply bool_decide_eq_false. intros Hdo. apply Ha. rewrite E, <- Hdo.
    by apply list_elem_of_fmap_2.
  - f_equal. by apply IH.
Qed.

Lemma existsb_has_id o (st : list doc) :
  existsb (has_id o) st = true ↔ ∃ d, d ∈ st ∧ _id d = o.
Proof.
  rewrite existsb_exists. split.
  - intros (d & Hin & Hd). exists d. split; [by apply list_elem_of_In|].
    unfold has_id in Hd. by apply bool_decide_eq_true in Hd.
  - intros (d & Hin & Hd). exists d. split; [by apply list_elem_of_In|].
    unfold has_id. by apply bool_decide_eq_true.
Qed.

(** [delete] on a collection with unique identifiers: it is answered
    [204] exactly when a record has the id and [404] otherwise; the
    collection afterwards is the old one without that record, the others
    in their order; and [getById] with the same id is then answered
    [404]. *)
Theorem delete_effect params req params' req' id o (st : list doc) :
  params !! "id" = Some id → params' !! "id" = Some id →
  ObjectId.new id = Some o → NoDup (_id <$> st) →
  (delete_game params req st).1.2 = List.filter (λ d, negb (has_id o d)) st
  ∧ ((delete_game params req st).1.1 = Ok (respond 204 Empty)
     ↔ ∃ d, d ∈ st ∧ _id d = o)
  ∧ ((delete_game params req st).1.1 = Ok not_found
     ↔ ∀ d, d ∈ st → _id d ≠ o)
  ∧ get_game params' req' (delete_game params req st).1.2
    = (Ok not_found, (delete_game params req st).1.2, [FindOne o]).
Proof.
  intros Hid Hid' Hnew Hnd.
  rewrite (delete_game_run params req id o) by done. cbn [fst snd].
  split; [by apply remove_first_filter|]. split; [|split].
  - rewrite <- existsb_has_id. by destruct (existsb (has_id o) st).
  - destruct (existsb (has_id o) st) eqn:E.
    + split; [done|]. intros Hnone. apply existsb_has_id in E as (d & Hd & Ho).
      by destruct (Hnone d Hd).
    + split; [|done]. intros _. by apply existsb_has_id_false.
  - rewrite (get_game_found_or_not params' req' id o) by done.
    rewrite find_fresh; [done|]. by apply remove_first_gone.
Qed.

Lemma delete_effect_witness :
  (delete_game {[ "id" := "0123456789abcdef01234567" ]}
     (mk_req DELETE ["api"; "games"; "0123456789abcdef01234567"] ∅)
     [stored_celeste]).1.2
  = List.filter (λ d, negb (has_id oid1 d)) [stored_celeste].
Proof.
  apply (delete_effect {[ "id" := "0123456789abcdef01234567" ]}
           (mk_req DELETE ["api"; "games"; "0123456789abcdef01234567"] ∅)
           {[ "id" := "0123456789abcdef01234567" ]}
           (mk_req GET ["api"; "games"; "0123456789abcdef01234567"] ∅)
           "0123456789abcdef01234567" oid1 [stored_celeste]);
    [reflexivity | reflexivity | reflexivity | apply NoDup_singleton].
Defined.

(** ** The favorite toggle *)

(** [toggleFavorite] on a record that exists: the reply is the stored
    record after the toggle, in which [favorite] is the boolean negation
    of the truthiness of the old value, [date_modification] is the time of
    the request and every other field is unchanged; the other records are
    untouched. *)
Theorem toggle_effect params req id o (st : list doc) d :
  params !! "id" = Some id → ObjectId.new id = Some o →
  List.find (has_id o) st = Some d →
  ∃ d' st',
    (post_favorite params req st).1
    = (Ok (respond 200 (Json (toResp (Some d')))), st')
    ∧ (post_favorite params req st).2
      = [FindOne o;
         FindOneAndUpdate o (favorite_set (fields d !! "favorite") (clock req))]
    ∧ List.find (has_id o) st' = Some d'
    ∧ _id d' = _id d
    ∧ fields d' !! "favorite"
      = Some (VBool (negb (truthy (fields d !! "favorite"))))
    ∧ fields d' !! "date_modification" = Some (VDate (clock req))
    ∧ (∀ k, k ≠ "favorite" → k ≠ "date_modification" →
            fields d' !! k = fields d !! k)
    ∧ (∀ o', o' ≠ o → List.find (has_id o') st' = List.find (has_id o') st).
Proof.
  intros Hid Hnew Hfind.
  rewrite (post_favorite_run params req id o) by done. rewrite Hfind.
  set (set := favorite_set (fields d !! "favorite") (clock req)).
  exists (Collection.apply_set set d), (Collection.update_first o set st).
  split; [done|]. split; [done|]. split; [by rewrite find_update_first, Hfind|].
  split; [done|]. split; [|split; [|split]].
  - cbn [Collection.apply_set fields]. apply lookup_union_Some_l.
    unfold set, favorite_set. by rewrite lookup_insert_eq.
  - cbn [Collection.apply_set fields]. apply lookup_union_Some_l.
    unfold set, favorite_set. by rewrite lookup_insert_ne, lookup_insert_eq.
  - intros k Hf Hm. apply apply_set_other. unfold set, favorite_set.
    by rewrite !lookup_insert_ne, lookup_empty.
  - intros o' Hne. by apply find_update_first_ne.
Qed.

Lemma toggle_effect_witness :
  ∃ d' st',
    (post_favorite {[ "id" := "0123456789abcdef01234567" ]}
       (mk_req POST ["api"; "games"; "0123456789abcdef01234567"; "favorite"] ∅)
       [stored_celeste]).1
    = (Ok (respond 200 (Json (toResp (Some d')))), st')
    ∧ fields d' !! "favorite" = Some (VBool true).
Proof.
  destruct (toggle_effect {[ "id" := "0123456789abcdef01234567" ]}
              (mk_req POST ["api"; "games"; "0123456789abcdef01234567"; "favorite"] ∅)
              "0123456789abcdef01234567" oid1 [stored_celeste] stored_celeste)
    as (d' & st' & Hrun & _ & _ & _ & Hfav & _);
    [reflexivity | reflexivity | reflexivity |].
  by exists d', st'.
Defined.

Lemma toggle_step params req id o (st : list doc) d :
  params !! "id" = Some id → ObjectId.new id = Some o →
  List.find (has_id o) st = Some d →
  ∃ d',
    (post_favorite params req st).1.1
    = Ok (respond 200 (Json (toResp (Some d'))))
    ∧ List.find (has_id o) (post_favorite params req st).1.2 = Some d'
    ∧ fields d' !! "favorite"
      = Some (VBool (negb (truthy (fields d !! "favorite"))))
    ∧ fields d' !! "date_modification" = Some (VDate (clock req))
    ∧ ∀ k, k ≠ "favorite" → k ≠ "date_modification" →
           fields d' !! k = fields d !! k.
Proof.
  intros Hid Hnew Hfind.
  rewrite (post_favorite_run params req id o) by done. rewrite Hfind.
  cbn [fst snd].
  exists (Collection.apply_set
            (favorite_set (fields d !! "favorite") (clock req)) d).
  split; [done|]. split; [by rewrite find_update_first, Hfind|].
  split; [|split].
  - apply lookup_union_Some_l. unfold favorite_set. by rewrite lookup_insert_eq.
  - apply lookup_union_Some_l. unfold favorite_set.
    by rewrite lookup_insert_ne, lookup_insert_eq.
  - intros k Hf Hm. apply apply_set_other. unfold favorite_set.
    by rewrite !lookup_insert_ne, lookup_empty.
Qed.

(** Two toggles in a row on a record that exists: [favorite] ends as the
    truthiness of its first value, so a boolean [favorite] is back to what
    it was; [date_modification] is the time of the second request; every
    other field is unchanged. *)
Theorem toggle_twice params req1 req2 id o (st : list doc) d :
  params !! "id" = Some id → ObjectId.new id = Some o →
  List.find (has_id o) st = Some d →
  ∃ d2,
    List.find (has_id o)
      (post_favorite params req2 (post_favorite params req1 st).1.2).1.2
    = Some d2
    ∧ (post_favorite params req2 (post_favorite params req1 st).1.2).1.1
      = Ok (respond 200 (Json (toResp (Some d2))))
    ∧ fields d2 !! "favorite" = Some (VBool (truthy (fields d !! "favorite")))
    ∧ (∀ b, fields d !! "favorite" = Some (VBool b) →
            fields d2 !! "favorite" = fields d !! "favorite")
    ∧ fields d2 !! "date_modification" = Some (VDate (clock req2))
    ∧ ∀ k, k ≠ "favorite" → k ≠ "date_modification" →
           fields d2 !! k = fields d !! k.
Proof.
  intros Hid Hnew Hfind.
  destruct (toggle_step params req1 id o st d Hid Hnew Hfind)
    as (d1 & _ & Hfind1 & Hfav1 & _ & Hkeep1).
  destruct (toggle_step params req2 id o _ d1 Hid Hnew Hfind1)
    as (d2 & Hrun2 & Hfind2 & Hfav2 & Hdm2 & Hkeep2).
  exists d2.
  assert (fields d2 !! "favorite" = Some (VBool (truthy (fields d !! "favorite"))))
    as Hfav.
  { rewrite Hfav2, Hfav1. simpl. by rewrite negb_involutive. }
  split; [done|]. split; [done|]. split; [done|]. split; [|split; [done|]].
  - intros b Hb. by rewrite Hfav, Hb.
  - intros k Hf Hm. by rewrite Hkeep2, Hkeep1.
Qed.

Lemma toggle_twice_witness :
  ∃ d2,
    List.find (has_id oid1)
      (post_favorite {[ "id" := "0123456789abcdef01234567" ]}
         (mk_req POST ["api"; "games"; "0123456789abcdef01234567"; "favorite"] ∅)
         (post_favorite {[ "id" := "0123456789abcdef01234567" ]}
            (mk_req POST ["api"; "games"; "0123456789abcdef01234567"; "favorite"] ∅)
            [stored_celeste]).1.2).1.2
    = Some d2
    ∧ fields d2 !! "favorite" = fields stored_celeste !! "favorite".
Proof.
  destruct (toggle_twice {[ "id" := "0123456789abcdef01234567" ]}
              (mk_req POST ["api"; "games"; "0123456789abcdef01234567"; "favorite"] ∅)
              (mk_req POST ["api"; "games"; "0123456789abcdef01234567"; "favorite"] ∅)
              "0123456789abcdef01234567" oid1 [stored_celeste] stored_celeste)
    as (d2 & Hfind & _ & _ & Hback & _);
    [reflexivity | reflexivity | reflexivity |].
  exists d2. split; [done|]. by apply (Hback false).
Defined.

(** ** Statistics *)

Lemma filter_match_all (st : list doc) : List.filter (doc_matches ∅) st = st.
Proof.
  apply forallb_filter_id, forallb_forall. intros d _.
  unfold doc_matches. by rewrite map_to_list_empty.
Qed.

Lemma get_stats_run params req (st : list doc) :
  get_stats params req st
  = (Ok (respond 200 (JsonStats
       {| totalGames := length st;
          totalPlayTime := foldl add_hours (Some 0%float) st;
          finishedGames :=
            length (List.filter (λ d, truthy (fields d !! "termine")) st);
          favoriteGames :=
            length (List.filter (λ d, truthy (fields d !! "favorite")) st) |})),
     st, [Find ∅]).
Proof.
  unfold get_stats, try_catch, mbind, M_bind, Collection.find. simpl.
  by rewrite filter_match_all.
Qed.

(** After a successful [create], [stats] counts one more game, one more
    finished game exactly when the payload's [termine] is truthy, and one
    more favorite exactly when the payload's [favorite] is truthy. *)
Theorem stats_after_create year params req params' req' (st : list doc) :
  validateGame year (body req) false = [] →
  (∀ d, d ∈ st → _id d ≠ generated req) →
  ∃ s s',
    (get_stats params' req' st).1.1 = Ok (respond 200 (JsonStats s))
    ∧ (get_stats params' req' (post_games year params req st).1.2).1.1
      = Ok (respond 200 (JsonStats s'))
    ∧ totalGames s' = totalGames s + 1
    ∧ finishedGames s'
      = finishedGames s + (if truthy (body req !! "termine") then 1 else 0)
    ∧ favoriteGames s'
      = favoriteGames s + (if truthy (body req !! "favorite") then 1 else 0).
Proof.
  intros Hv Hfresh. rewrite post_games_accepts by done. cbn [fst snd].
  rewrite !get_stats_run. cbn [fst snd]. eexists _, _.
  split; [reflexivity|]. split; [reflexivity|]. cbn [totalGames finishedGames favoriteGames].
  rewrite !List.filter_app, !length_app. cbn [List.filter].
  change (fields (inserted_doc req) !! "termine")
    with (Some (VBool (truthy (body req !! "termine")))).
  change (fields (inserted_doc req) !! "favorite")
    with (Some (VBool (truthy (body req !! "favorite")))).
  cbn [truthy].
  by destruct (truthy (body req !! "termine")), (truthy (body req !! "favorite")).
Qed.

Lemma stats_after_create_witness :
  ∃ s s',
    (get_stats ∅ (mk_req GET ["api"; "stats"] ∅) []).1.1
    = Ok (respond 200 (JsonStats s))
    ∧ (get_stats ∅ (mk_req GET ["api"; "stats"] ∅)
         (post_games 2026 ∅ (mk_req POST ["api"; "games"] celeste_yes) []).1.2).1.1
      = Ok (respond 200 (JsonStats s'))
    ∧ totalGames s' = totalGames s + 1
    ∧ finishedGames s' = finishedGames s + 0
    ∧ favoriteGames s' = favoriteGames s + 1.
Proof.
  apply (stats_after_create 2026 ∅ (mk_req POST ["api"; "games"] celeste_yes)
           ∅ (mk_req GET ["api"; "stats"] ∅) []).
  - reflexivity.
  - intros d Hd. by apply elem_of_nil in Hd.
Defined.

Lemma filter_update_first (f : doc → bool) o (set : obj) (st : list doc) d :
  List.find (has_id o) st = Some d →
  length (List.filter f (Collection.update_first o set st))
  + (if f d then 1 else 0)
  = length (List.filter f st)
    + (if f (Collection.apply_set set d) then 1 else 0).
Proof.
  induction st as [|a st IH]; simpl; [done|].
  destruct (has_id o a) eqn:E.
  - intros [= ->]. simpl.
    destruct (f d), (f (Collection.apply_set set d)); simpl; lia.
  - intros Hf. simpl. destruct (f a); simpl; rewrite <- (IH Hf); lia.
Qed.

(** A toggle on a record that exists moves the [favoriteGames] count of
    [stats] by exactly one, down when the record's [favorite] was truthy
    and up otherwise, and leaves [totalGames] and [finishedGames] as they
    were. *)
Theorem stats_after_toggle params req params' req' id o (st : list doc) d :
  params !! "id" = Some id → ObjectId.new id = Some o →
  List.find (has_id o) st = Some d →
  ∃ s s',
    (get_stats params' req' st).1.1 = Ok (respond 200 (JsonStats s))
    ∧ (get_stats params' req' (post_favorite params req st).1.2).1.1
      = Ok (respond 200 (JsonStats s'))
    ∧ totalGames s' = totalGames s
    ∧ finishedGames s' = finishedGames s
    ∧ (if truthy (fields d !! "favorite")
       then favoriteGames s' + 1 = favoriteGames s
       else favoriteGames s' = favoriteGames s + 1).
Proof.
  intros Hid Hnew Hfind.
  rewrite (post_favorite_run params req id o) by done. rewrite Hfind.
  cbn [fst snd]. rewrite !get_stats_run. cbn [fst snd]. eexists _, _.
  split; [reflexivity|]. split; [reflexivity|].
  cbn [totalGames finishedGames favoriteGames].
  set (set := favorite_set (fields d !! "favorite") (clock req)).
  split; [apply update_first_length|]. split.
  - pose proof (filter_update_first (λ d, truthy (fields d !! "termine"))
                  o set st d Hfind) as H. cbn beta in H.
    rewrite (apply_set_other set d "termine") in H by done.
    destruct (truthy (fields d !! "termine")); lia.
  - pose proof (filter_update_first (λ d, truthy (fields d !! "favorite"))
                  o set st d Hfind) as H. cbn beta in H.
    assert (fields (Collection.apply_set set d) !! "favorite"
            = Some (VBool (negb (truthy (fields d !! "favorite"))))) as Hf.
    { cbn [Collection.apply_set fields]. apply lookup_union_Some_l.
      unfold set, favorite_set. by rewrite lookup_insert_eq. }
    rewrite Hf in H. cbn [truthy] in H.
    destruct (truthy (fields d !! "favorite")); simpl in H; lia.
Qed.

Lemma stats_after_toggle_witness :
  ∃ s s',
    (get_stats ∅ (mk_req GET ["api"; "stats"] ∅) [stored_celeste]).1.1
    = Ok (respond 200 (JsonStats s))
    ∧ (get_stats ∅ (mk_req GET ["api"; "stats"] ∅)
         (post_favorite {[ "id" := "0123456789abcdef01234567" ]}
            (mk_req POST ["api"; "games"; "0123456789abcdef01234567"; "favorite"] ∅)
            [stored_celeste]).1.2).1.1
      = Ok (respond 200 (JsonStats s'))
    ∧ favoriteGames s' = favoriteGames s + 1.
Proof.
  destruct (stats_after_toggle {[ "id" := "0123456789abcdef01234567" ]}
              (mk_req POST ["api"; "games"; "0123456789abcdef01234567"; "favorite"] ∅)
              ∅ (mk_req GET ["api"; "stats"] ∅)
              "0123456789abcdef01234567" oid1 [stored_celeste] stored_celeste)
    as (s & s' & H1 & H2 & _ & _ & H3);
    [reflexivity | reflexivity | reflexivity |].
  by exists s, s'.
Defined.

Lemma add_hours_defined (st : list doc) x :
  Forall (field_is (λ v, v = VNull ∨ ∃ y, v = VNum y) "temps_jeu_heures") st →
  ∃ hours, foldl add_hours (Some x) st = Some hours.
Proof.
  intros H. revert x. induction H as [|d st (v & Hv & Hval) _ IH]; intros x.
  - by exists x.
  - cbn [foldl]. unfold add_hours at 2. cbn [mbind option_bind]. rewrite Hv.
    destruct Hval as [->|[y ->]]; cbn [truthy].
    + apply IH.
    + destruct (negb _); apply IH.
Qed.

Lemma conforms_temps year d :
  doc_conforms year d →
  field_is (λ v, v = VNull ∨ ∃ y, v = VNum y) "temps_jeu_heures" d.
Proof.
  intros Hc.
  destruct (Hc "temps_jeu_heures"
              {| s_type := SNumber; s_required := false; s_min := Some 0%Z;
                 s_max := None; s_minItems := None; s_minLength := None |})
    as (v & Hv & Hconf); [unfold gameSchema; do 6 right; left|].
  exists v. split; [done|]. destruct Hconf as [->|H]; [by left|].
  pose proof (H TypeCheck ltac:(done)) as Ht.
  destruct v; try done; [by left|right; by eexists].
Qed.

(** On every collection the server can hold, [temps_jeu_heures] is
    [null] or a number in each record, so the sum [stats] computes is an
    addition of numbers from [0] on: [totalPlayTime] is always a number.
    On the empty collection all four figures are [0]. *)
Theorem stats_total_is_number year params req (st : list doc) :
  reachable year st →
  ∃ s hours,
    get_stats params req st = (Ok (respond 200 (JsonStats s)), st, [Find ∅])
    ∧ totalPlayTime s = Some hours
    ∧ totalGames s = length st
    ∧ (st = [] → hours = 0%float ∧ finishedGames s = 0 ∧ favoriteGames s = 0).
Proof.
  intros Hreach. rewrite get_stats_run.
  destruct (add_hours_defined st 0%float) as [hours Hh].
  { eapply Forall_impl; [by apply reachable_conforms|]. apply conforms_temps. }
  eexists _, hours. split; [reflexivity|]. split; [done|]. split; [done|].
  intros ->. simpl in *. split; [congruence|done].
Qed.

Lemma stats_total_is_number_witness :
  ∃ s hours,
    get_stats ∅ (mk_req GET ["api"; "stats"] ∅) [stored_celeste]
    = (Ok (respond 200 (JsonStats s)), [stored_celeste], [Find ∅])
    ∧ totalPlayTime s = Some hours
    ∧ totalGames s = length [stored_celeste]
    ∧ ([stored_celeste] = [] →
       hours = 0%float ∧ finishedGames s = 0 ∧ favoriteGames s = 0).
Proof.
  apply (stats_total_is_number 2026 ∅ (mk_req GET ["api"; "stats"] ∅)
           [stored_celeste]).
  exact (reachable_step 2026 [] (mk_req POST ["api"; "games"] celeste)
           (post_games 2026 ∅ (mk_req POST ["api"; "games"] celeste))
           (reachable_empty 2026) eq_refl).
Defined.

(** ** More on listing *)

Lemma get_games_run params req (st : list doc) :
  get_games params req st
  = (Ok (respond 200 (JsonList ((λ d, toResp (Some d)) <$> listed (query req) st))),
     st, [Find (list_filter (query req))]).
Proof. done. Qed.

Lemma listed_Permutation q (st : list doc) :
  listed q st ≡ₚ List.filter (selected q) st.
Proof.
  unfold listed. rewrite merge_sort_Permutation.
  by rewrite (List.filter_ext _ _ (doc_matches_list_filter q)).
Qed.

Lemma elem_of_listed q (st : list doc) d :
  d ∈ listed q st ↔ d ∈ st ∧ selected q d = true.
Proof. by rewrite listed_Permutation, filter_elem. Qed.

Lemma field_matches_true_termine (v : value) :
  termine_value v → field_matches (VBool true) (Some v) = truthy (Some v).
Proof. intros [->|[[] ->]]; done. Qed.

(** On every collection the server can hold, the [finishedGames] figure
    of [stats] is the number of records [list] returns for the filter
    [termine: "true"]. *)
Theorem stats_finished_is_list_count year params req params' req' (st : list doc) :
  reachable year st →
  query req' = {[ "termine" := "true" ]} →
  ∃ s l,
    (get_stats params req st).1.1 = Ok (respond 200 (JsonStats s))
    ∧ (get_games params' req' st).1.1 = Ok (respond 200 (JsonList l))
    ∧ finishedGames s = length l.
Proof.
  intros [_ Hok]%reachable_ok Hq. rewrite get_stats_run, get_games_run.
  eexists _, _. split; [reflexivity|]. split; [reflexivity|].
  cbn [finishedGames]. rewrite length_fmap, listed_Permutation, Hq.
  f_equal. apply filter_ext_in. intros d Hd%list_elem_of_In.
  rewrite Forall_forall in Hok. destruct (Hok d Hd) as (_ & (v & Hv & Hval) & _).
  unfold selected, text_filter, flag_filter.
  rewrite (lookup_singleton_ne "termine" "genre"),
          (lookup_singleton_ne "termine" "plateforme"),
          (lookup_singleton_ne "termine" "favorite"), lookup_singleton_eq by done.
  simpl. rewrite andb_true_r, Hv. symmetry. by apply field_matches_true_termine.
Qed.

Lemma stats_finished_is_list_count_witness :
  ∃ s l,
    (get_stats ∅ (mk_req GET ["api"; "stats"] ∅) [stored_celeste]).1.1
    = Ok (respond 200 (JsonStats s))
    ∧ (get_games ∅ (with_query {[ "termine" := "true" ]}
                      (mk_req GET ["api"; "games"] ∅)) [stored_celeste]).1.1
      = Ok (respond 200 (JsonList l))
    ∧ finishedGames s = length l.
Proof.
  apply (stats_finished_is_list_count 2026 ∅ (mk_req GET ["api"; "stats"] ∅)
           ∅ (with_query {[ "termine" := "true" ]} (mk_req GET ["api"; "games"] ∅))
           [stored_celeste]).
  - exact (reachable_step 2026 [] (mk_req POST ["api"; "games"] celeste)
             (post_games 2026 ∅ (mk_req POST ["api"; "games"] celeste))
             (reachable_empty 2026) eq_refl).
  - reflexivity.
Defined.

Lemma selected_no_filter d : selected ∅ d = true.
Proof. done. Qed.

(** A record just created is among those [list] returns when no filter
    is given, and that list is one longer than the collection was. *)
Theorem create_then_list year params req params' req' (st : list doc) :
  validateGame year (body req) false = [] →
  (∀ d, d ∈ st → _id d ≠ generated req) →
  query req' = ∅ →
  ∃ r l,
    (post_games year params req st).1.1 = Ok (respond 201 (Json r))
    ∧ (get_games params' req' (post_games year params req st).1.2).1.1
      = Ok (respond 200 (JsonList l))
    ∧ r ∈ l ∧ length l = length st + 1.
Proof.
  intros Hv Hfresh Hq. rewrite post_games_accepts by done. cbn [fst snd].
  rewrite get_games_run, Hq. cbn [fst snd]. eexists _, _.
  split; [reflexivity|]. split; [reflexivity|].
  assert (listed ∅ (st ++ [inserted_doc req]) ≡ₚ st ++ [inserted_doc req]) as Hp.
  { rewrite listed_Permutation. apply reflexive_eq.
    apply forallb_filter_id, forallb_forall. intros d _. apply selected_no_filter. }
  split.
  - apply (list_elem_of_fmap_2 (λ d, toResp (Some d))). rewrite Hp.
    apply elem_of_app. right. left.
  - by rewrite length_fmap, Hp, length_app.
Qed.

Lemma create_then_list_witness :
  ∃ r l,
    (post_games 2026 ∅ (mk_req POST ["api"; "games"] celeste) []).1.1
    = Ok (respond 201 (Json r))
    ∧ (get_games ∅ (mk_req GET ["api"; "games"] ∅)
         (post_games 2026 ∅ (mk_req POST ["api"; "games"] celeste) []).1.2).1.1
      = Ok (respond 200 (JsonList l))
    ∧ r ∈ l ∧ length l = length (@nil doc) + 1.
Proof.
  apply (create_then_list 2026 ∅ (mk_req POST ["api"; "games"] celeste)
           ∅ (mk_req GET ["api"; "games"] ∅) []).
  - reflexivity.
  - intros d Hd. by apply elem_of_nil in Hd.
  - reflexivity.
Defined.

Lemma conforms_genre year d :
  doc_conforms year d →
  field_is (λ v, v = VNull ∨ ∃ l, v = VArr l) "genre" d.
Proof.
  intros Hc.
  destruct (Hc "genre"
              {| s_type := SArray; s_required := true; s_min := None;
                 s_max := None; s_minItems := Some 1; s_minLength := None |})
    as (v & Hv & Hconf); [unfold gameSchema; do 1 right; left|].
  exists v. split; [done|]. destruct Hconf as [->|H]; [by left|].
  pose proof (H TypeCheck ltac:(done)) as Ht.
  destruct v; try done; [by left|right; by eexists].
Qed.

Lemma existsb_scalar_str g (l : list value) :
  existsb (scalar_eqb (VStr g)) l = true ↔ VStr g ∈ l.
Proof.
  rewrite existsb_exists. split.
  - intros (x & Hin & Hx). destruct x; try done. simpl in Hx.
    apply bool_decide_eq_true in Hx as ->. by apply list_elem_of_In.
  - intros Hin. exists (VStr g). split; [by apply list_elem_of_In|].
    simpl. by apply bool_decide_eq_true.
Qed.

(** On every collection the server can hold, [list] with a [genre]
    filter alone returns exactly the records whose [genre] array has the
    given string among its elements. *)
Theorem list_by_genre year params req g (st : list doc) :
  reachable year st → g ≠ "" → query req = {[ "genre" := g ]} →
  ∃ docs,
    (get_games params req st).1.1
    = Ok (respond 200 (JsonList ((λ d, toResp (Some d)) <$> docs)))
    ∧ ∀ d, d ∈ docs ↔
           d ∈ st ∧ ∃ l, fields d !! "genre" = Some (VArr l) ∧ VStr g ∈ l.
Proof.
  intros Hreach Hg Hq. rewrite get_games_run, Hq. cbn [fst snd].
  exists (listed {[ "genre" := g ]} st). split; [done|].
  intros d. rewrite elem_of_listed.
  assert (d ∈ st →
          (selected {[ "genre" := g ]} d = true
           ↔ ∃ l, fields d !! "genre" = Some (VArr l) ∧ VStr g ∈ l)) as Hiff.
  { intros Hd.
    assert (selected {[ "genre" := g ]} d
            = field_matches (VStr g) (fields d !! "genre")) as ->.
    { unfold selected, text_filter, flag_filter.
      rewrite (lookup_singleton_ne "genre" "plateforme"),
              (lookup_singleton_ne "genre" "termine"),
              (lookup_singleton_ne "genre" "favorite"), lookup_singleton_eq by done.
      rewrite bool_decide_false by done. simpl. by rewrite !andb_true_r. }
    pose proof (reachable_conforms year st Hreach) as Hall.
    rewrite Forall_forall in Hall.
    destruct (conforms_genre year d (Hall d Hd)) as (v & Hv & [->|[l ->]]);
      rewrite Hv; simpl.
    - split; [done|]. by intros (l & [=] & _).
    - rewrite existsb_scalar_str. split; [by exists l|].
      by intros (l' & [= <-] & H). }
  split; intros [Hd H]; (split; [done|]); by apply Hiff.
Qed.

Lemma list_by_genre_witness :
  ∃ docs,
    (get_games ∅ (with_query {[ "genre" := "platformer" ]}
                    (mk_req GET ["api"; "games"] ∅)) [stored_celeste]).1.1
    = Ok (respond 200 (JsonList ((λ d, toResp (Some d)) <$> docs)))
    ∧ ∀ d, d ∈ docs ↔
           d ∈ [stored_celeste]
           ∧ ∃ l, fields d !! "genre" = Some (VArr l) ∧ VStr "platformer" ∈ l.
Proof.
  apply (list_by_genre 2026 ∅
           (with_query {[ "genre" := "platformer" ]} (mk_req GET ["api"; "games"] ∅))
           "platformer" [stored_celeste]).
  - exact (reachable_step 2026 [] (mk_req POST ["api"; "games"] celeste)
             (post_games 2026 ∅ (mk_req POST ["api"; "games"] celeste))
             (reachable_empty 2026) eq_refl).
  - discriminate.
  - reflexivity.
Defined.

(** ** Response shaping *)

Lemma reachable_shape year (st : list doc) :
  reachable year st → Forall has_shape st.
Proof.
  apply (reachable_docs year).
  - intros req _. apply inserted_doc_shape.
  - intros req d _. apply apply_set_shape. unfold update_set.
    rewrite dom_insert_L. pose proof (dom_whitelist (body req)) as Hw.
    unfold allowed, doc_keys in *. set_solver.
  - intros b t d. apply apply_set_shape.
    rewrite !dom_insert_L, dom_empty_L. unfold doc_keys. set_solver.
Qed.

(** [toResp] maps no record to no record, and a record of a collection
    the server can hold to an object that has the identifier as the
    string [id], has no [_id], and has every stored field unchanged. *)
Theorem toResp_shape year (st : list doc) d :
  reachable year st → d ∈ st →
  toResp None = None
  ∧ ∃ r, toResp (Some d) = Some r
         ∧ r !! "id" = Some (VStr (ObjectId.toString (_id d)))
         ∧ r !! "_id" = None
         ∧ ∀ k, k ≠ "id" → r !! k = fields d !! k.
Proof.
  intros Hreach Hd. split; [done|].
  pose proof (reachable_shape year st Hreach) as Hall.
  rewrite Forall_forall in Hall. specialize (Hall d Hd).
  assert (fields d !! "id" = None ∧ fields d !! "_id" = None) as [Hid H_id].
  { split; apply not_elem_of_dom; rewrite Hall; unfold doc_keys; set_solver. }
  eexists. split; [reflexivity|]. split; [|split].
  - rewrite lookup_union_r; [by rewrite lookup_singleton_eq|].
    by rewrite lookup_delete_ne.
  - rewrite lookup_union, lookup_delete_eq, lookup_singleton_ne by done. done.
  - intros k Hk. rewrite lookup_union, lookup_singleton_ne by done.
    destruct (decide (k = "_id")) as [->|Hne].
    + by rewrite lookup_delete_eq, H_id.
    + rewrite lookup_delete_ne by done. by destruct (fields d !! k).
Qed.

Lemma toResp_shape_witness :
  ∃ r, toResp (Some stored_celeste) = Some r
       ∧ r !! "id" = Some (VStr "0123456789abcdef01234567")
       ∧ r !! "_id" = None
       ∧ ∀ k, k ≠ "id" → r !! k = fields stored_celeste !! k.
Proof.
  apply (toResp_shape 2026 [stored_celeste] stored_celeste).
  - exact (reachable_step 2026 [] (mk_req POST ["api"; "games"] celeste)
             (post_games 2026 ∅ (mk_req POST ["api"; "games"] celeste))
             (reachable_empty 2026) eq_refl).
  - left.
Defined.

(** ** The three outcomes of [create] *)

